(** * UltrasonicGridMap: occupancy grid cell, sensor model and sliding grid

    A shallow embedding of [grid_cell.h], [grid_sensor.h] and [grid_map.h].

    Numeric conventions of the embedding:
    - the [float] and [double] members and arguments of [GridMap] (the
      resolution, the origin, world coordinates, the sizes handed to
      [init]) are IEEE 754 values, [spec_float], with the operations of
      binary32 (precision 24, [emax] 128) and binary64 (precision 53, [emax]
      1024) of the standard library, rounding to nearest even; every
      implicit conversion of the source ([int] to [float] or [double],
      [float] to [double], [double] or [float] to [int]) is written out;
    - the conversion of a floating-point value to [int] discards the
      fraction; it is undefined for a NaN, an infinity and a value outside
      the [int] range, which the embedding reports as [None];
    - the log-odds value of a cell is a real number ([R]): the grid copies
      and resets cell values and never computes with them; in [update] the
      comparisons are those of the source and the sum is not rounded; the
      factors and increments of the sensor are real numbers as well, with
      [std::log] as [ln], and the statements about them are limited to
      what rounding keeps: an increment that is exactly 0, and the sign of
      an increment, not strict;
    - [int] quantities are integers ([Z]); statements that depend on the
      [int] range name it in a hypothesis;
    - [uint8_t] flag sets are integers combined with [Z.lor], reduced
      modulo [2^8] where the source stores them, and tested with [Z.land];
    - the cell array [_map_data] is [option (list GridCell)]: [None] is the
      null pointer, and an access outside the allocated cells is undefined
      behaviour, which the embedding reports as [None]. *)

From stdpp Require Import base decidable option list numbers.
From Stdlib Require Import ZArith Reals Lra Lia SpecFloat.

(** ** Comparisons on reals as decidable relations *)

#[global] Instance Rlt_decision : RelDecision Rlt := Rlt_dec.
#[global] Instance Rgt_decision : RelDecision Rgt := Rgt_dec.
#[global] Instance Rle_decision : RelDecision Rle := Rle_dec.
#[global] Instance Rge_decision : RelDecision Rge := Rge_dec.

(** ** grid_cell.h *)

Record GridCell : Type := { _log_odds_val : R }.

(** [reset_value]: back to the prior, log-odds 0. *)
Definition reset_value (c : GridCell) : GridCell :=
  {| _log_odds_val := 0 |}.

(** [update]: the guarded accumulation
    [if ((mea > 0 && val < 50) || (mea < 0 && val > -50)) val += mea]. *)
Definition update (mea_log_odds : R) (c : GridCell) : GridCell :=
  if (bool_decide (mea_log_odds > 0)%R && bool_decide (_log_odds_val c < 50)%R)
     || (bool_decide (mea_log_odds < 0)%R && bool_decide (_log_odds_val c > -50)%R)
  then {| _log_odds_val := _log_odds_val c + mea_log_odds |}
  else c.

(** ** grid_sensor.h *)

Record GridSensor : Type := {
  _log_odds_hit : R;
  _log_odds_miss : R
}.

Definition set_update_factor (hit_factor miss_factor : R) : GridSensor :=
  {| _log_odds_hit := ln (hit_factor / miss_factor);
     _log_odds_miss := ln ((1 - hit_factor) / (1 - miss_factor)) |}.

Definition set_hit (s : GridSensor) (cell : GridCell) : GridCell :=
  update (_log_odds_hit s) cell.

Definition set_miss (s : GridSensor) (cell : GridCell) : GridCell :=
  update (_log_odds_miss s) cell.

(** ** IEEE 754 arithmetic of [float] and [double] *)

(** binary32 *)
Definition f32_mul : spec_float -> spec_float -> spec_float := SFmul 24 128.
Definition f32_div : spec_float -> spec_float -> spec_float := SFdiv 24 128.

(** binary64 *)
Definition f64_add : spec_float -> spec_float -> spec_float := SFadd 53 1024.
Definition f64_sub : spec_float -> spec_float -> spec_float := SFsub 53 1024.
Definition f64_mul : spec_float -> spec_float -> spec_float := SFmul 53 1024.
Definition f64_div : spec_float -> spec_float -> spec_float := SFdiv 53 1024.

(** The conversions [int -> float] and [int -> double]. *)
Definition int_to_float (z : Z) : spec_float :=
  binary_normalize 24 128 z 0 false.

Definition int_to_double (z : Z) : spec_float :=
  binary_normalize 53 1024 z 0 false.

(** The conversion [float -> double]: the same value. *)
Definition float_to_double (f : spec_float) : spec_float :=
  match f with
  | S754_finite s m e => binary_normalize 53 1024 (cond_Zopp s (Zpos m)) e s
  | _ => f
  end.

Definition INT_MIN : Z := (- 2 ^ 31)%Z.
Definition INT_MAX : Z := (2 ^ 31 - 1)%Z.

(** The conversions [double -> int] and [float -> int]: the fraction is
    discarded; undefined for a NaN, an infinity, and when the result is not
    an [int]. *)
Definition fp_to_int (v : spec_float) : option Z :=
  match v with
  | S754_zero _ => Some 0%Z
  | S754_finite s m e =>
      let t := cond_Zopp s (Z.shiftl (Zpos m) e) in
      if (INT_MIN <=? t)%Z && (t <=? INT_MAX)%Z then Some t else None
  | _ => None
  end.

(** The literal [0.5]. *)
Definition double_half : spec_float := binary_normalize 53 1024 1 (-1) false.

(** ** grid_map.h: constants and flags *)

(** [const float RESOLUTION = 0.1]: the binary32 value next to 0.1,
    [13421773 * 2^-27]. *)
Definition RESOLUTION : spec_float := S754_finite false 13421773 (-27).
Definition WIDTH : Z := 300.
Definition HEIGHT : Z := 300.
Definition EXT_ZONE : Z := 50.

(** [enum ExtZoneType] *)
Definition NONE : Z := 0.
Definition TOP : Z := Z.shiftl 1 0.
Definition LEFT : Z := Z.shiftl 1 1.
Definition DOWN : Z := Z.shiftl 1 2.
Definition RIGHT : Z := Z.shiftl 1 3.

(** ** grid_map.h: the data model *)

Record Vector2d : Type := { v2_x : spec_float; v2_y : spec_float }.
Record Vector3d : Type :=
  { v3_x : spec_float; v3_y : spec_float; v3_z : spec_float }.

Record GridMap : Type := {
  _resolution : spec_float;
  _width : Z;
  _height : Z;
  _origin : Vector2d;
  _map_data : option (list GridCell)
}.

Definition with_origin (o : Vector2d) (g : GridMap) : GridMap :=
  {| _resolution := _resolution g; _width := _width g; _height := _height g;
     _origin := o; _map_data := _map_data g |}.

Definition with_map_data (d : option (list GridCell)) (g : GridMap) : GridMap :=
  {| _resolution := _resolution g; _width := _width g; _height := _height g;
     _origin := _origin g; _map_data := d |}.

(** The conversion [int -> uint8_t]: the value modulo [2^8]. *)
Definition to_uint8 (z : Z) : Z := z mod 256.

(** ** Array accesses and counted loops *)

(** [a[i]] as an rvalue: defined inside the allocated cells only. *)
Definition arr_get (a : list GridCell) (i : Z) : option GridCell :=
  if bool_decide (0 <= i)%Z then a !! Z.to_nat i else None.

(** [a[i] = f(a[i])]: a member call or a member assignment on [a[i]]. *)
Definition arr_modify (a : list GridCell) (i : Z) (f : GridCell -> GridCell)
  : option (list GridCell) :=
  c ← arr_get a i; Some (<[Z.to_nat i := f c]> a).

(** [c._log_odds_val = v] *)
Definition set_log_odds_val (v : R) (c : GridCell) : GridCell :=
  {| _log_odds_val := v |}.

(** [a[dst]._log_odds_val = a[src]._log_odds_val] *)
Definition arr_copy_val (a : list GridCell) (dst src : Z)
  : option (list GridCell) :=
  c ← arr_get a src; arr_modify a dst (set_log_odds_val (_log_odds_val c)).

(** [n] iterations of [body], the counter going up from [i]. *)
Fixpoint for_up_n {St : Type} (n : nat) (i : Z) (body : Z -> St -> option St)
  (s : St) : option St :=
  match n with
  | O => Some s
  | S n' => s' ← body i s; for_up_n n' (i + 1)%Z body s'
  end.

(** [n] iterations of [body], the counter going down from [i]. *)
Fixpoint for_down_n {St : Type} (n : nat) (i : Z) (body : Z -> St -> option St)
  (s : St) : option St :=
  match n with
  | O => Some s
  | S n' => s' ← body i s; for_down_n n' (i - 1)%Z body s'
  end.

(** [for (int i = lo; i < hi; i++) body] *)
Definition for_up {St : Type} (lo hi : Z) (body : Z -> St -> option St) (s : St)
  : option St :=
  for_up_n (Z.to_nat (hi - lo)) lo body s.

(** [for (int i = hi; i >= lo; i--) body] *)
Definition for_down {St : Type} (hi lo : Z) (body : Z -> St -> option St) (s : St)
  : option St :=
  for_down_n (Z.to_nat (hi - lo + 1)) hi body s.

(** ** grid_map.h: member functions *)

Definition index_map (g : GridMap) (idx_x idx_y : Z) : Z :=
  (idx_y * _width g + idx_x)%Z.

(** [index_map(idx, idx_x, idx_y)]: the pair [(idx_x, idx_y)]. *)
Definition index_map_inv (g : GridMap) (idx : Z) : Z * Z :=
  let idx_y := (idx ÷ _width g)%Z in
  let idx_x := (idx - idx_y * _width g)%Z in
  (idx_x, idx_y).

(** [operator()(int idx)] *)
Definition cell_idx (g : GridMap) (idx : Z) : option GridCell :=
  a ← _map_data g; arr_get a idx.

(** [operator()(int idx_x, int idx_y)] *)
Definition cell_xy (g : GridMap) (idx_x idx_y : Z) : option GridCell :=
  cell_idx g (index_map g idx_x idx_y).

(** [set_origin]: [_resolution * _width / 2] is a binary32 product and
    quotient ([_width] and [2] converted to [float]), subtracted from the
    [double] coordinate after conversion to [double]. *)
Definition set_origin (pos : Vector3d) (g : GridMap) : GridMap :=
  with_origin
    {| v2_x := f64_sub (v3_x pos)
                 (float_to_double
                    (f32_div (f32_mul (_resolution g) (int_to_float (_width g)))
                       (int_to_float 2)));
       v2_y := f64_sub (v3_y pos)
                 (float_to_double
                    (f32_div (f32_mul (_resolution g) (int_to_float (_height g)))
                       (int_to_float 2))) |} g.

(** [new GridCell[_width * _height]]: the cells come uninitialised, [junk]
    is what the fresh memory holds; a negative length throws. *)
Definition allocate_map_data (junk : nat -> GridCell) (g : GridMap)
  : option GridMap :=
  if bool_decide (0 <= _width g * _height g)%Z
  then Some (with_map_data
               (Some (junk <$> seq 0 (Z.to_nat (_width g * _height g)))) g)
  else None.

Definition delete_map_data (g : GridMap) : GridMap :=
  with_map_data None g.

Definition reset_map_data (g : GridMap) : option GridMap :=
  let size := (_width g * _height g)%Z in
  match _map_data g with
  | Some a =>
      a' ← for_up 0 size (fun i a => arr_modify a i reset_value) a;
      Some (with_map_data (Some a') g)
  | None => Some g
  end.

Definition is_in_border (g : GridMap) (idx_x idx_y : Z) : bool :=
  (idx_x >=? 0)%Z && (idx_x <? _width g)%Z
  && (idx_y >=? 0)%Z && (idx_y <? _height g)%Z.

(** [idx_to_xy]: [_origin.x() + _resolution * (idx_x + 0.5)] in binary64,
    [idx_x] and [_resolution] converted to [double]. *)
Definition idx_to_xy (g : GridMap) (idx_x idx_y : Z)
  : bool * spec_float * spec_float :=
  let x := f64_add (v2_x (_origin g))
             (f64_mul (float_to_double (_resolution g))
                (f64_add (int_to_double idx_x) double_half)) in
  let y := f64_add (v2_y (_origin g))
             (f64_mul (float_to_double (_resolution g))
                (f64_add (int_to_double idx_y) double_half)) in
  (is_in_border g idx_x idx_y, x, y).

(** [xy_to_idx]: [(x - _origin.x()) / _resolution] in binary64, converted
    to [int] on assignment to [idx_x]. *)
Definition xy_to_idx (g : GridMap) (x y : spec_float)
  : option (bool * Z * Z) :=
  idx_x ← fp_to_int (f64_div (f64_sub x (v2_x (_origin g)))
                       (float_to_double (_resolution g)));
  idx_y ← fp_to_int (f64_div (f64_sub y (v2_y (_origin g)))
                       (float_to_double (_resolution g)));
  Some (if is_in_border g idx_x idx_y then (true, idx_x, idx_y)
        else (false,
              Z.max 0 (Z.min idx_x (_width g - 1)),
              Z.max 0 (Z.min idx_y (_height g - 1)))).

(** [is_in_border(double x, double y)] *)
Definition is_in_border_xy (g : GridMap) (x y : spec_float) : option bool :=
  match xy_to_idx g x y with
  | Some (ok, _, _) => Some ok
  | None => None
  end.

(** [is_in_border(const Eigen::Vector3d & pos)] *)
Definition is_in_border_pos (g : GridMap) (pos : Vector3d) : option bool :=
  is_in_border_xy g (v3_x pos) (v3_y pos).

Definition pos_to_idx (g : GridMap) (pos : Vector3d) : option (bool * Z * Z) :=
  xy_to_idx g (v3_x pos) (v3_y pos).

(** [idx_to_pos]: [pos.setZero()], then [idx_to_xy] into [pos.x()] and
    [pos.y()]. *)
Definition idx_to_pos (g : GridMap) (idx_x idx_y : Z) : bool * Vector3d :=
  let '(ok, x, y) := idx_to_xy g idx_x idx_y in
  (ok, {| v3_x := x; v3_y := y; v3_z := S754_zero false |}).

Definition is_in_ext_zone (g : GridMap) (pos : Vector3d) : option Z :=
  let ext_zone_type := to_uint8 NONE in
  match pos_to_idx g pos with
  | Some (ok, idx_x, idx_y) =>
      Some
        (if ok then
           let ext_zone_type :=
             if (idx_x <? EXT_ZONE)%Z then to_uint8 (Z.lor ext_zone_type LEFT)
             else ext_zone_type in
           let ext_zone_type :=
             if (idx_x >=? _width g - EXT_ZONE)%Z
             then to_uint8 (Z.lor ext_zone_type RIGHT)
             else ext_zone_type in
           let ext_zone_type :=
             if (idx_y <? EXT_ZONE)%Z then to_uint8 (Z.lor ext_zone_type DOWN)
             else ext_zone_type in
           let ext_zone_type :=
             if (idx_y >=? _height g - EXT_ZONE)%Z
             then to_uint8 (Z.lor ext_zone_type TOP)
             else ext_zone_type in
           ext_zone_type
         else ext_zone_type)
  | None => None
  end.

(** Run a loop nest on the cells behind [_map_data]; behind a null pointer
    there is no cell that may be accessed. *)
Definition on_map_data (k : list GridCell -> option (list GridCell))
  (g : GridMap) : option GridMap :=
  match _map_data g with
  | Some a => a' ← k a; Some (with_map_data (Some a') g)
  | None => _ ← k []; Some g
  end.

(** The loop nest of the [LEFT] block of [extend_map]. *)
Definition shift_left_loops (w h : Z) (a : list GridCell)
  : option (list GridCell) :=
  for_up 0 h (fun y a =>
    for_down (w - 1) 0 (fun x a =>
      if (x <? EXT_ZONE)%Z
      then arr_modify a (y * w + x) reset_value
      else arr_copy_val a (y * w + x) (y * w + (x - EXT_ZONE))) a) a.

(** The loop nest of the [RIGHT] block. *)
Definition shift_right_loops (w h : Z) (a : list GridCell)
  : option (list GridCell) :=
  for_up 0 h (fun y a =>
    for_up 0 w (fun x a =>
      if (x >=? w - EXT_ZONE)%Z
      then arr_modify a (y * w + x) reset_value
      else arr_copy_val a (y * w + x) (y * w + (x + EXT_ZONE))) a) a.

(** The loop nest of the [DOWN] block. *)
Definition shift_down_loops (w h : Z) (a : list GridCell)
  : option (list GridCell) :=
  for_down (h - 1) 0 (fun y a =>
    for_up 0 w (fun x a =>
      if (y <? EXT_ZONE)%Z
      then arr_modify a (y * w + x) reset_value
      else arr_copy_val a (y * w + x) ((y - EXT_ZONE) * w + x)) a) a.

(** The loop nest of the [TOP] block. *)
Definition shift_top_loops (w h : Z) (a : list GridCell)
  : option (list GridCell) :=
  for_up 0 h (fun y a =>
    for_up 0 w (fun x a =>
      if (y >=? h - EXT_ZONE)%Z
      then arr_modify a (y * w + x) reset_value
      else arr_copy_val a (y * w + x) ((y + EXT_ZONE) * w + x)) a) a.

(** [EXT_ZONE * _resolution]: the binary32 product of [EXT_ZONE], converted
    to [float], and the resolution, then converted to [double] for the
    compound assignment to a coordinate of [_origin]. *)
Definition ext_step (g : GridMap) : spec_float :=
  float_to_double (f32_mul (int_to_float EXT_ZONE) (_resolution g)).

Definition extend_left (g : GridMap) : option GridMap :=
  on_map_data (shift_left_loops (_width g) (_height g))
    (with_origin {| v2_x := f64_sub (v2_x (_origin g)) (ext_step g);
                    v2_y := v2_y (_origin g) |} g).

Definition extend_right (g : GridMap) : option GridMap :=
  on_map_data (shift_right_loops (_width g) (_height g))
    (with_origin {| v2_x := f64_add (v2_x (_origin g)) (ext_step g);
                    v2_y := v2_y (_origin g) |} g).

Definition extend_down (g : GridMap) : option GridMap :=
  on_map_data (shift_down_loops (_width g) (_height g))
    (with_origin {| v2_x := v2_x (_origin g);
                    v2_y := f64_sub (v2_y (_origin g)) (ext_step g) |} g).

Definition extend_top (g : GridMap) : option GridMap :=
  on_map_data (shift_top_loops (_width g) (_height g))
    (with_origin {| v2_x := v2_x (_origin g);
                    v2_y := f64_add (v2_y (_origin g)) (ext_step g) |} g).

(** [if (ext_zone_type & flag) block] *)
Definition when_flag (ext_zone_type flag : Z)
  (block : GridMap -> option GridMap) (g : GridMap) : option GridMap :=
  if (Z.land ext_zone_type flag =? 0)%Z then Some g else block g.

Definition extend_map (ext_zone_type : Z) (g : GridMap) : option GridMap :=
  if (ext_zone_type =? 0)%Z then Some g
  else
    g ← when_flag ext_zone_type LEFT extend_left g;
    g ← when_flag ext_zone_type RIGHT extend_right g;
    g ← when_flag ext_zone_type DOWN extend_down g;
    when_flag ext_zone_type TOP extend_top g.

Definition reset_map (junk : nat -> GridCell) (pos : Vector3d) (g : GridMap)
  : option GridMap :=
  let g := set_origin pos g in
  let g := delete_map_data g in
  g ← allocate_map_data junk g;
  reset_map_data g.

(** [init]: the [float] arguments [width] and [height] are converted to
    [int] on assignment. *)
Definition init (junk : nat -> GridCell) (resolution width height : spec_float)
  (center_pos : Vector3d) (g : GridMap) : option GridMap :=
  w ← fp_to_int width;
  h ← fp_to_int height;
  let g := {| _resolution := resolution;
              _width := w;
              _height := h;
              _origin := _origin g;
              _map_data := _map_data g |} in
  let g := set_origin center_pos g in
  let g := delete_map_data g in
  g ← allocate_map_data junk g;
  reset_map_data g.

(** The constructor: [_map_data = nullptr; init(...)]; [uninit] is what the
    members hold before. *)
Definition GridMap_new (junk : nat -> GridCell)
  (resolution width height : spec_float)
  (center_pos : Vector3d) (uninit : GridMap) : option GridMap :=
  init junk resolution width height center_pos (with_map_data None uninit).

(** [for (int i = 0; i < size; ++i) _map_data[i] = grid_map(i);] *)
Definition copy_cells_loop (grid_map : GridMap) (size : Z)
  (a : list GridCell) : option (list GridCell) :=
  for_up 0 size (fun i a =>
    c ← cell_idx grid_map i; arr_modify a i (fun _ => c)) a.

(** The copy constructor. *)
Definition GridMap_copy (junk : nat -> GridCell) (grid_map : GridMap)
  : option GridMap :=
  let this := {| _resolution := _resolution grid_map;
                 _width := _width grid_map;
                 _height := _height grid_map;
                 _origin := _origin grid_map;
                 _map_data := None |} in
  let size := (_width this * _height this)%Z in
  this ← allocate_map_data junk this;
  match _map_data this with
  | Some a =>
      a' ← copy_cells_loop grid_map size a;
      Some (with_map_data (Some a') this)
  | None => Some this
  end.

(** [operator=]; [same_object] says whether [&grid_map == this]. *)
Definition GridMap_assign (junk : nat -> GridCell) (same_object : bool)
  (this grid_map : GridMap) : option GridMap :=
  if same_object then Some this
  else
    this ← (if negb (_width grid_map =? _width this)%Z
               || negb (_height grid_map =? _height this)%Z
            then
              let this := delete_map_data this in
              if bool_decide (0 <= _height grid_map * _width grid_map)%Z
              then Some (with_map_data
                     (Some (junk <$> seq 0 (Z.to_nat
                        (_height grid_map * _width grid_map)))) this)
              else None
            else Some this);
    let this := {| _resolution := _resolution grid_map;
                   _width := _width grid_map;
                   _height := _height grid_map;
                   _origin := _origin grid_map;
                   _map_data := _map_data this |} in
    let size := (_width this * _height this)%Z in
    on_map_data (copy_cells_loop grid_map size) this.

(** The class invariant: the array behind [_map_data] holds
    [_width * _height] cells. *)
Definition grid_wf (g : GridMap) : Prop :=
  exists a, _map_data g = Some a
            /\ length a = Z.to_nat (_width g * _height g).

(** ** grid_cell.h: classification *)

(** [is_occupied], [is_free]: the thresholds [s_log_odds_occupied_thre] and
    [s_log_odds_free_thre] are static members that the header declares and
    does not define; they are parameters here. *)
Definition is_occupied (s_log_odds_occupied_thre : R) (c : GridCell) : bool :=
  bool_decide (_log_odds_val c > s_log_odds_occupied_thre)%R.

Definition is_free (s_log_odds_free_thre : R) (c : GridCell) : bool :=
  bool_decide (_log_odds_val c < s_log_odds_free_thre)%R.

(** ** grid_sensor.h: defaults *)

(** [0.9f] is [15099494 * 2^-24] and [0.05f] is [13421773 * 2^-28]. *)
Definition DEFAULT_HIT_FACTOR : R := (15099494 / 16777216)%R.
Definition DEFAULT_MISS_FACTOR : R := (13421773 / 268435456)%R.

(** ** Specification vocabulary for the shifting passes *)

Definition in_grid (w h x y : Z) : Prop :=
  (0 <= x < w)%Z /\ (0 <= y < h)%Z.

Definition prior : GridCell := {| _log_odds_val := 0 |}.

(** What a shifting pass has reached: the cells marked by [done] hold what
    [tgt] says, every other cell still holds what it held in [a0]. *)
Definition pass_inv (w h : Z) (a0 : list GridCell) (done : Z -> Z -> bool)
  (tgt : Z -> Z -> option GridCell) (a : list GridCell) : Prop :=
  length a = length a0
  /\ forall x y, in_grid w h x y ->
       a !! Z.to_nat (y * w + x) =
       if done x y then tgt x y else a0 !! Z.to_nat (y * w + x).

(** The content of cell [(x, y)] after each pass, from the cells [a0]
    before it. *)
Definition shifted_left (w : Z) (a0 : list GridCell) (x y : Z)
  : option GridCell :=
  if (x <? EXT_ZONE)%Z then Some prior
  else a0 !! Z.to_nat (y * w + (x - EXT_ZONE)).

Definition shifted_right (w : Z) (a0 : list GridCell) (x y : Z)
  : option GridCell :=
  if (x >=? w - EXT_ZONE)%Z then Some prior
  else a0 !! Z.to_nat (y * w + (x + EXT_ZONE)).

Definition shifted_down (w : Z) (a0 : list GridCell) (x y : Z)
  : option GridCell :=
  if (y <? EXT_ZONE)%Z then Some prior
  else a0 !! Z.to_nat ((y - EXT_ZONE) * w + x).

Definition shifted_top (w h : Z) (a0 : list GridCell) (x y : Z)
  : option GridCell :=
  if (y >=? h - EXT_ZONE)%Z then Some prior
  else a0 !! Z.to_nat ((y + EXT_ZONE) * w + x).

(** The floor of a finite floating-point value. *)
Definition fp_floor (v : spec_float) : option Z :=
  match v with
  | S754_zero _ => Some 0%Z
  | S754_finite s m e => Some (Z.shiftl (cond_Zopp s (Zpos m)) e)
  | _ => None
  end.


(** ** Sample grids *)

(** Cell number [i] holds the log-odds value [i]. *)
Definition numbered_cells (n : nat) : list GridCell :=
  (fun i => {| _log_odds_val := INR i |}) <$> seq 0 n.

(** [1.0f] *)
Definition float_one : spec_float := S754_finite false 8388608 (-23).

(** A [w] by [h] grid of unit resolution with its origin at [(0, 0)]. *)
Definition numbered_grid (w h : Z) : GridMap :=
  {| _resolution := float_one; _width := w; _height := h;
     _origin := {| v2_x := S754_zero false; v2_y := S754_zero false |};
     _map_data := Some (numbered_cells (Z.to_nat (w * h))) |}.

(** The members that [init] leaves for a resolution, a size and a centre,
    with [d] behind [_map_data]. *)
Definition centred_grid (resolution : spec_float) (w h : Z)
  (center_pos : Vector3d) (d : option (list GridCell)) : GridMap :=
  set_origin center_pos
    {| _resolution := resolution; _width := w; _height := h;
       _origin := {| v2_x := S754_zero false; v2_y := S754_zero false |};
       _map_data := d |}.

Definition zero_pos : Vector3d :=
  {| v3_x := S754_zero false; v3_y := S754_zero false;
     v3_z := S754_zero false |}.

(** The grid of the default arguments of the constructor: resolution
    [0.1f], 300 by 300 cells, centred at [(0, 0, 0)]. *)
Definition default_grid (d : option (list GridCell)) : GridMap :=
  centred_grid RESOLUTION WIDTH HEIGHT zero_pos d.

(** The same grid centred at [(1e15, 0, 0)]. *)
Definition far_grid (d : option (list GridCell)) : GridMap :=
  centred_grid RESOLUTION WIDTH HEIGHT
    {| v3_x := int_to_double (10 ^ 15); v3_y := S754_zero false;
       v3_z := S754_zero false |} d.


#[global] Arguments f32_mul : simpl never.
#[global] Arguments f32_div : simpl never.
#[global] Arguments f64_add : simpl never.
#[global] Arguments f64_sub : simpl never.
#[global] Arguments f64_mul : simpl never.
#[global] Arguments f64_div : simpl never.
#[global] Arguments int_to_float : simpl never.
#[global] Arguments int_to_double : simpl never.
#[global] Arguments float_to_double : simpl never.
#[global] Arguments fp_to_int : simpl never.
#[global] Arguments ext_step : simpl never.

(** ** Cell and sensor theorems *)

Lemma update_applied (d : R) (c : GridCell) :
  ((d > 0 /\ _log_odds_val c < 50) \/ (d < 0 /\ _log_odds_val c > -50))%R ->
  update d c = {| _log_odds_val := _log_odds_val c + d |}.
Proof.
  intros H. unfold update.
  repeat case_bool_decide; simpl; try reflexivity; exfalso; lra.
Qed.

Lemma update_blocked (d : R) (c : GridCell) :
  ~ ((d > 0 /\ _log_odds_val c < 50) \/ (d < 0 /\ _log_odds_val c > -50))%R ->
  update d c = c.
Proof.
  intros H. unfold update.
  repeat case_bool_decide; simpl; try reflexivity; exfalso; apply H; lra.
Qed.

(** C4. [update d] replaces the value [v] by [v + d] exactly when
    [d > 0] and [v < 50], or [d < 0] and [v > -50]; otherwise the value is
    left as it is.  In particular a negative increment is applied to a cell
    whose value is at or above 50. *)
Theorem update_saturating (v d : R) :
  (((d > 0 /\ v < 50) \/ (d < 0 /\ v > -50))%R ->
     _log_odds_val (update d {| _log_odds_val := v |}) = (v + d)%R)
  /\ (~ ((d > 0 /\ v < 50) \/ (d < 0 /\ v > -50))%R ->
     _log_odds_val (update d {| _log_odds_val := v |}) = v)
  /\ ((d < 0)%R -> (50 <= v)%R ->
     _log_odds_val (update d {| _log_odds_val := v |}) = (v + d)%R).
Proof.
  split; [|split].
  - intros H. rewrite update_applied; [reflexivity | exact H].
  - intros H. rewrite update_blocked; [reflexivity | exact H].
  - intros Hd Hv. rewrite update_applied; [reflexivity |].
    right. simpl. lra.
Qed.

Lemma update_saturating_witness :
  _log_odds_val (update 2 {| _log_odds_val := 1 |}) = (1 + 2)%R
  /\ _log_odds_val (update 2 {| _log_odds_val := 50 |}) = 50%R
  /\ _log_odds_val (update (-2) {| _log_odds_val := 60 |}) = (60 + -2)%R.
Proof.
  split; [|split].
  - destruct (update_saturating 1 2) as [H _]. apply H. left. lra.
  - destruct (update_saturating 50 2) as (_ & H & _). apply H.
    intros K. destruct K as [[_ K]|[K _]]; lra.
  - destruct (update_saturating 60 (-2)) as (_ & _ & H). apply H; lra.
Defined.

(** C9. [update 0] leaves every cell as it is; hence a sensor configured
    with equal (non-zero) hit and miss factors has [_log_odds_hit = 0] and
    its [set_hit] changes no cell. *)
Theorem update_zero_noop (c : GridCell) (f : R) :
  update 0 c = c
  /\ (f <> 0%R ->
      _log_odds_hit (set_update_factor f f) = 0%R
      /\ set_hit (set_update_factor f f) c = c).
Proof.
  assert (Hz : update 0 c = c).
  { apply update_blocked. intros H; destruct H as [[H _]|[H _]]; lra. }
  split; [exact Hz|].
  intros Hf.
  assert (Hl : _log_odds_hit (set_update_factor f f) = 0%R).
  { simpl. replace (f / f)%R with 1%R by (field; exact Hf). apply ln_1. }
  split; [exact Hl|].
  unfold set_hit. rewrite Hl. exact Hz.
Qed.

Lemma update_zero_noop_witness :
  let c := {| _log_odds_val := 7 |} in
  update 0 c = c
  /\ _log_odds_hit (set_update_factor (/ 2) (/ 2)) = 0%R
  /\ set_hit (set_update_factor (/ 2) (/ 2)) c = c.
Proof.
  intros c.
  destruct (update_zero_noop c (/ 2)) as [Hz Hs].
  split; [exact Hz|]. apply Hs. lra.
Defined.

(** ** Counted loops: invariant rules *)

Section Loops.
Context {St : Type} (body : Z -> St -> option St) (I : Z -> St -> Prop).

Lemma for_up_n_inv (n : nat) (i : Z) (s : St) :
  I i s ->
  (forall j t, (i <= j < i + Z.of_nat n)%Z -> I j t ->
     exists t', body j t = Some t' /\ I (j + 1)%Z t') ->
  exists s', for_up_n n i body s = Some s' /\ I (i + Z.of_nat n)%Z s'.
Proof.
  revert i s. induction n as [|n IH]; intros i s Hi Hstep.
  - exists s. split; [reflexivity|]. now replace (i + Z.of_nat 0)%Z with i by lia.
  - destruct (Hstep i s) as (t & Ht & Hit); [lia | exact Hi |].
    destruct (IH (i + 1)%Z t Hit) as (s' & Hs' & His').
    { intros j u Hj. apply Hstep. lia. }
    exists s'. split.
    + simpl. rewrite Ht. exact Hs'.
    + now replace (i + Z.of_nat (S n))%Z with (i + 1 + Z.of_nat n)%Z by lia.
Qed.

Lemma for_down_n_inv (n : nat) (i : Z) (s : St) :
  I i s ->
  (forall j t, (i - Z.of_nat n < j <= i)%Z -> I j t ->
     exists t', body j t = Some t' /\ I (j - 1)%Z t') ->
  exists s', for_down_n n i body s = Some s' /\ I (i - Z.of_nat n)%Z s'.
Proof.
  revert i s. induction n as [|n IH]; intros i s Hi Hstep.
  - exists s. split; [reflexivity|]. now replace (i - Z.of_nat 0)%Z with i by lia.
  - destruct (Hstep i s) as (t & Ht & Hit); [lia | exact Hi |].
    destruct (IH (i - 1)%Z t Hit) as (s' & Hs' & His').
    { intros j u Hj. apply Hstep. lia. }
    exists s'. split.
    + simpl. rewrite Ht. exact Hs'.
    + now replace (i - Z.of_nat (S n))%Z with (i - 1 - Z.of_nat n)%Z by lia.
Qed.

Lemma for_up_inv (lo hi : Z) (s : St) :
  I lo s ->
  (forall j t, (lo <= j < hi)%Z -> I j t ->
     exists t', body j t = Some t' /\ I (j + 1)%Z t') ->
  exists s', for_up lo hi body s = Some s' /\ I (Z.max lo hi) s'.
Proof.
  intros Hi Hstep. unfold for_up.
  destruct (for_up_n_inv (Z.to_nat (hi - lo)) lo s Hi) as (s' & Hs' & His').
  { intros j t Hj. apply Hstep. lia. }
  exists s'. split; [exact Hs'|].
  now replace (Z.max lo hi) with (lo + Z.of_nat (Z.to_nat (hi - lo)))%Z by lia.
Qed.

Lemma for_down_inv (hi lo : Z) (s : St) :
  I hi s ->
  (forall j t, (lo <= j <= hi)%Z -> I j t ->
     exists t', body j t = Some t' /\ I (j - 1)%Z t') ->
  exists s', for_down hi lo body s = Some s' /\ I (Z.min hi (lo - 1)) s'.
Proof.
  intros Hi Hstep. unfold for_down.
  destruct (for_down_n_inv (Z.to_nat (hi - lo + 1)) hi s Hi)
    as (s' & Hs' & His').
  { intros j t Hj. apply Hstep. lia. }
  exists s'. split; [exact Hs'|].
  now replace (Z.min hi (lo - 1)) with (hi - Z.of_nat (Z.to_nat (hi - lo + 1)))%Z by lia.
Qed.
End Loops.

(** ** Row-major indexing *)

Lemma index_in_range (w h x y : Z) :
  in_grid w h x y -> (0 <= y * w + x < w * h)%Z.
Proof. intros [Hx Hy]. nia. Qed.

Lemma index_inj (w h x y x' y' : Z) :
  in_grid w h x y -> in_grid w h x' y' ->
  (y * w + x = y' * w + x')%Z -> x = x' /\ y = y'.
Proof.
  intros [Hx Hy] [Hx' Hy'] E.
  assert (y = y') by nia. subst y'. split; [lia | reflexivity].
Qed.

Lemma index_to_nat_inj (w h x y x' y' : Z) :
  in_grid w h x y -> in_grid w h x' y' ->
  Z.to_nat (y * w + x) = Z.to_nat (y' * w + x') -> x = x' /\ y = y'.
Proof.
  intros G G' E. apply (index_inj w h); [exact G | exact G' |].
  pose proof (index_in_range _ _ _ _ G). pose proof (index_in_range _ _ _ _ G').
  lia.
Qed.

Lemma lookup_in_grid (w h : Z) (a : list GridCell) (x y : Z) :
  length a = Z.to_nat (w * h) -> in_grid w h x y ->
  exists c, a !! Z.to_nat (y * w + x) = Some c.
Proof.
  intros Hlen G. apply lookup_lt_is_Some.
  pose proof (index_in_range _ _ _ _ G). lia.
Qed.

Lemma arr_get_in_grid (w h : Z) (a : list GridCell) (x y : Z) :
  in_grid w h x y -> arr_get a (y * w + x) = a !! Z.to_nat (y * w + x).
Proof.
  intros G. unfold arr_get. pose proof (index_in_range _ _ _ _ G).
  rewrite bool_decide_eq_true_2 by lia. reflexivity.
Qed.

(** ** One step of a shifting pass *)

Section PassSteps.
Variables (w h : Z) (a0 : list GridCell).
Hypothesis Hlen : length a0 = Z.to_nat (w * h).
Variables (done done' : Z -> Z -> bool) (tgt : Z -> Z -> option GridCell).
Variables (x y : Z).
Hypothesis Hxy : in_grid w h x y.
Hypothesis Hdone_here : done' x y = true.
Hypothesis Hdone_else : forall x' y', in_grid w h x' y' ->
  (x', y') <> (x, y) -> done' x' y' = done x' y'.

Lemma pass_inv_write (a : list GridCell) (c c' : GridCell) :
  pass_inv w h a0 done tgt a ->
  arr_get a (y * w + x) = Some c ->
  tgt x y = Some c' ->
  pass_inv w h a0 done' tgt (<[Z.to_nat (y * w + x) := c']> a).
Proof.
  intros [Hl Hc] Hget Htgt. split.
  - rewrite length_insert. exact Hl.
  - intros x' y' G'.
    destruct (decide ((x', y') = (x, y))) as [E|NE].
    + injection E as -> ->. rewrite Hdone_here, Htgt.
      apply list_lookup_insert_eq.
      pose proof (index_in_range _ _ _ _ Hxy). lia.
    + rewrite list_lookup_insert_ne.
      * rewrite (Hdone_else x' y' G' NE). apply Hc. exact G'.
      * intros E. apply NE.
        destruct (index_to_nat_inj w h x y x' y' Hxy G' E) as [-> ->].
        reflexivity.
Qed.

Lemma pass_step_reset (a : list GridCell) :
  pass_inv w h a0 done tgt a ->
  tgt x y = Some prior ->
  exists a', arr_modify a (y * w + x) reset_value = Some a'
             /\ pass_inv w h a0 done' tgt a'.
Proof.
  intros Hinv Htgt.
  destruct (lookup_in_grid w h a x y) as [c Hc];
    [destruct Hinv as [-> _]; exact Hlen | exact Hxy |].
  rewrite <- (arr_get_in_grid w h) in Hc by exact Hxy.
  eexists. split.
  - unfold arr_modify. rewrite Hc. simpl. reflexivity.
  - apply (pass_inv_write a c); [exact Hinv | exact Hc | exact Htgt].
Qed.

Lemma pass_step_copy (a : list GridCell) (sx sy : Z) :
  pass_inv w h a0 done tgt a ->
  in_grid w h sx sy ->
  done sx sy = false ->
  tgt x y = a0 !! Z.to_nat (sy * w + sx) ->
  exists a', arr_copy_val a (y * w + x) (sy * w + sx) = Some a'
             /\ pass_inv w h a0 done' tgt a'.
Proof.
  intros Hinv Gs Hs Htgt.
  destruct (lookup_in_grid w h a x y) as [c Hc];
    [destruct Hinv as [-> _]; exact Hlen | exact Hxy |].
  rewrite <- (arr_get_in_grid w h) in Hc by exact Hxy.
  destruct (lookup_in_grid w h a0 sx sy Hlen Gs) as [c0 Hc0].
  assert (Hsrc : arr_get a (sy * w + sx) = Some c0).
  { rewrite (arr_get_in_grid w h) by exact Gs.
    destruct Hinv as [_ Hcells]. rewrite (Hcells sx sy Gs), Hs. exact Hc0. }
  eexists. split.
  - unfold arr_copy_val, arr_modify. rewrite Hsrc. simpl. rewrite Hc. simpl.
    reflexivity.
  - apply (pass_inv_write a c); [exact Hinv | exact Hc |].
    rewrite Htgt, Hc0. destruct c0. reflexivity.
Qed.
End PassSteps.

(** ** The four shifting passes *)

Lemma EXT_ZONE_nonneg : (0 <= EXT_ZONE)%Z.
Proof. unfold EXT_ZONE. lia. Qed.

Lemma pass_inv_ext (w h : Z) (a0 a : list GridCell)
  (done done' : Z -> Z -> bool) (tgt : Z -> Z -> option GridCell) :
  (forall x y, in_grid w h x y -> done' x y = done x y) ->
  pass_inv w h a0 done tgt a -> pass_inv w h a0 done' tgt a.
Proof.
  intros E [Hl Hc]. split; [exact Hl|].
  intros x y G. rewrite (E x y G). apply Hc. exact G.
Qed.

Lemma pass_inv_start (w h : Z) (a0 : list GridCell)
  (done : Z -> Z -> bool) (tgt : Z -> Z -> option GridCell) :
  (forall x y, in_grid w h x y -> done x y = false) ->
  pass_inv w h a0 done tgt a0.
Proof.
  intros E. split; [reflexivity|].
  intros x y G. rewrite (E x y G). reflexivity.
Qed.

Lemma pass_inv_finish (w h : Z) (a0 a : list GridCell)
  (done : Z -> Z -> bool) (tgt : Z -> Z -> option GridCell) :
  (forall x y, in_grid w h x y -> done x y = true) ->
  pass_inv w h a0 done tgt a ->
  length a = length a0
  /\ forall x y, in_grid w h x y -> a !! Z.to_nat (y * w + x) = tgt x y.
Proof.
  intros E [Hl Hc]. split; [exact Hl|].
  intros x y G. rewrite (Hc x y G), (E x y G). reflexivity.
Qed.

Lemma pair_neq (x y x' y' : Z) :
  (x', y') <> (x, y) -> x' <> x \/ y' <> y.
Proof.
  intros NE. destruct (decide (x' = x)) as [->|]; [|left; assumption].
  right. intros ->. apply NE. reflexivity.
Qed.

(** Decide every integer comparison in sight, then leave it to [lia]. *)
Ltac zcmp :=
  repeat match goal with
  | |- context [(?a <? ?b)%Z] => destruct (Z.ltb_spec a b)
  | |- context [(?a >=? ?b)%Z] => rewrite (Z.geb_leb a b)
  | |- context [(?a <=? ?b)%Z] => destruct (Z.leb_spec a b)
  | |- context [(?a =? ?b)%Z] => destruct (Z.eqb_spec a b)
  end; simpl; try reflexivity; try lia.

Ltac pass_side :=
  match goal with
  | |- in_grid _ _ _ _ =>
      unfold in_grid in *; pose proof EXT_ZONE_nonneg; lia
  | |- forall x' y', in_grid _ _ _ _ -> (x', y') <> _ -> _ =>
      let G := fresh in let NE := fresh in
      intros ? ? G NE; apply pair_neq in NE; unfold in_grid in *;
      pose proof EXT_ZONE_nonneg; zcmp
  | |- forall x' y', in_grid _ _ _ _ -> _ =>
      let G := fresh in
      intros ? ? G; unfold in_grid in *; pose proof EXT_ZONE_nonneg; zcmp
  | |- _ => unfold in_grid in *; pose proof EXT_ZONE_nonneg; zcmp
  end.

Lemma shift_left_loops_spec (w h : Z) (a0 : list GridCell) :
  length a0 = Z.to_nat (w * h) ->
  exists a, shift_left_loops w h a0 = Some a
    /\ length a = length a0
    /\ forall x y, in_grid w h x y ->
         a !! Z.to_nat (y * w + x) = shifted_left w a0 x y.
Proof.
  intros Hlen. unfold shift_left_loops.
  destruct (for_up_inv
    (fun y a => for_down (w - 1) 0 (fun x a =>
       if (x <? EXT_ZONE)%Z then arr_modify a (y * w + x) reset_value
       else arr_copy_val a (y * w + x) (y * w + (x - EXT_ZONE))) a)
    (fun y => pass_inv w h a0 (fun _ y' => (y' <? y)%Z) (shifted_left w a0))
    0%Z h a0) as (a & Ha & Hinv).
  - apply pass_inv_start. pass_side.
  - intros y a Hy Hrow.
    destruct (for_down_inv
      (fun x a =>
         if (x <? EXT_ZONE)%Z then arr_modify a (y * w + x) reset_value
         else arr_copy_val a (y * w + x) (y * w + (x - EXT_ZONE)))
      (fun x => pass_inv w h a0
         (fun x' y' => (y' <? y)%Z || ((y' =? y)%Z && (x <? x')%Z))
         (shifted_left w a0))
      (w - 1)%Z 0%Z a) as (a' & Ha' & Hinv').
    + revert Hrow. apply pass_inv_ext. pass_side.
    + intros x b Hx Hb. destruct (Z.ltb_spec x EXT_ZONE) as [Hlt|Hge].
      * eapply (pass_step_reset w h a0 Hlen); try exact Hb; try pass_side.
        unfold shifted_left. pass_side.
      * eapply (pass_step_copy w h a0 Hlen); try exact Hb; try pass_side.
        unfold shifted_left. pass_side.
    + exists a'. split; [exact Ha'|].
      revert Hinv'. apply pass_inv_ext. pass_side.
  - exists a. split; [exact Ha|].
    revert Hinv. apply pass_inv_finish. pass_side.
Qed.

Lemma shift_right_loops_spec (w h : Z) (a0 : list GridCell) :
  length a0 = Z.to_nat (w * h) ->
  exists a, shift_right_loops w h a0 = Some a
    /\ length a = length a0
    /\ forall x y, in_grid w h x y ->
         a !! Z.to_nat (y * w + x) = shifted_right w a0 x y.
Proof.
  intros Hlen. unfold shift_right_loops.
  destruct (for_up_inv
    (fun y a => for_up 0 w (fun x a =>
       if (x >=? w - EXT_ZONE)%Z then arr_modify a (y * w + x) reset_value
       else arr_copy_val a (y * w + x) (y * w + (x + EXT_ZONE))) a)
    (fun y => pass_inv w h a0 (fun _ y' => (y' <? y)%Z) (shifted_right w a0))
    0%Z h a0) as (a & Ha & Hinv).
  - apply pass_inv_start. pass_side.
  - intros y a Hy Hrow.
    destruct (for_up_inv
      (fun x a =>
         if (x >=? w - EXT_ZONE)%Z then arr_modify a (y * w + x) reset_value
         else arr_copy_val a (y * w + x) (y * w + (x + EXT_ZONE)))
      (fun x => pass_inv w h a0
         (fun x' y' => (y' <? y)%Z || ((y' =? y)%Z && (x' <? x)%Z))
         (shifted_right w a0))
      0%Z w a) as (a' & Ha' & Hinv').
    + revert Hrow. apply pass_inv_ext. pass_side.
    + intros x b Hx Hb. rewrite Z.geb_leb.
      destruct (Z.leb_spec (w - EXT_ZONE) x) as [Hge|Hlt].
      * eapply (pass_step_reset w h a0 Hlen); try exact Hb; try pass_side.
        unfold shifted_right. pass_side.
      * eapply (pass_step_copy w h a0 Hlen); try exact Hb; try pass_side.
        unfold shifted_right. pass_side.
    + exists a'. split; [exact Ha'|].
      revert Hinv'. apply pass_inv_ext. pass_side.
  - exists a. split; [exact Ha|].
    revert Hinv. apply pass_inv_finish. pass_side.
Qed.

Lemma shift_down_loops_spec (w h : Z) (a0 : list GridCell) :
  length a0 = Z.to_nat (w * h) ->
  exists a, shift_down_loops w h a0 = Some a
    /\ length a = length a0
    /\ forall x y, in_grid w h x y ->
         a !! Z.to_nat (y * w + x) = shifted_down w a0 x y.
Proof.
  intros Hlen. unfold shift_down_loops.
  destruct (for_down_inv
    (fun y a => for_up 0 w (fun x a =>
       if (y <? EXT_ZONE)%Z then arr_modify a (y * w + x) reset_value
       else arr_copy_val a (y * w + x) ((y - EXT_ZONE) * w + x)) a)
    (fun y => pass_inv w h a0 (fun _ y' => (y <? y')%Z) (shifted_down w a0))
    (h - 1)%Z 0%Z a0) as (a & Ha & Hinv).
  - apply pass_inv_start. pass_side.
  - intros y a Hy Hrow.
    destruct (for_up_inv
      (fun x a =>
         if (y <? EXT_ZONE)%Z then arr_modify a (y * w + x) reset_value
         else arr_copy_val a (y * w + x) ((y - EXT_ZONE) * w + x))
      (fun x => pass_inv w h a0
         (fun x' y' => (y <? y')%Z || ((y' =? y)%Z && (x' <? x)%Z))
         (shifted_down w a0))
      0%Z w a) as (a' & Ha' & Hinv').
    + revert Hrow. apply pass_inv_ext. pass_side.
    + intros x b Hx Hb. destruct (Z.ltb_spec y EXT_ZONE) as [Hlt|Hge].
      * eapply (pass_step_reset w h a0 Hlen); try exact Hb; try pass_side.
        unfold shifted_down. pass_side.
      * eapply (pass_step_copy w h a0 Hlen); try exact Hb; try pass_side.
        unfold shifted_down. pass_side.
    + exists a'. split; [exact Ha'|].
      revert Hinv'. apply pass_inv_ext. pass_side.
  - exists a. split; [exact Ha|].
    revert Hinv. apply pass_inv_finish. pass_side.
Qed.

Lemma shift_top_loops_spec (w h : Z) (a0 : list GridCell) :
  length a0 = Z.to_nat (w * h) ->
  exists a, shift_top_loops w h a0 = Some a
    /\ length a = length a0
    /\ forall x y, in_grid w h x y ->
         a !! Z.to_nat (y * w + x) = shifted_top w h a0 x y.
Proof.
  intros Hlen. unfold shift_top_loops.
  destruct (for_up_inv
    (fun y a => for_up 0 w (fun x a =>
       if (y >=? h - EXT_ZONE)%Z then arr_modify a (y * w + x) reset_value
       else arr_copy_val a (y * w + x) ((y + EXT_ZONE) * w + x)) a)
    (fun y => pass_inv w h a0 (fun _ y' => (y' <? y)%Z) (shifted_top w h a0))
    0%Z h a0) as (a & Ha & Hinv).
  - apply pass_inv_start. pass_side.
  - intros y a Hy Hrow.
    destruct (for_up_inv
      (fun x a =>
         if (y >=? h - EXT_ZONE)%Z then arr_modify a (y * w + x) reset_value
         else arr_copy_val a (y * w + x) ((y + EXT_ZONE) * w + x))
      (fun x => pass_inv w h a0
         (fun x' y' => (y' <? y)%Z || ((y' =? y)%Z && (x' <? x)%Z))
         (shifted_top w h a0))
      0%Z w a) as (a' & Ha' & Hinv').
    + revert Hrow. apply pass_inv_ext. pass_side.
    + intros x b Hx Hb. rewrite Z.geb_leb.
      destruct (Z.leb_spec (h - EXT_ZONE) y) as [Hge|Hlt].
      * eapply (pass_step_reset w h a0 Hlen); try exact Hb; try pass_side.
        unfold shifted_top. pass_side.
      * eapply (pass_step_copy w h a0 Hlen); try exact Hb; try pass_side.
        unfold shifted_top. pass_side.
    + exists a'. split; [exact Ha'|].
      revert Hinv'. apply pass_inv_ext. pass_side.
  - exists a. split; [exact Ha|].
    revert Hinv. apply pass_inv_finish. pass_side.
Qed.

(** ** The four blocks of [extend_map] on a well-formed grid *)

Lemma on_map_data_spec (k : list GridCell -> option (list GridCell))
  (g : GridMap) (a0 a : list GridCell) :
  _map_data g = Some a0 -> k a0 = Some a ->
  on_map_data k g = Some (with_map_data (Some a) g).
Proof.
  intros Hd Hk. unfold on_map_data. rewrite Hd, Hk. reflexivity.
Qed.

Lemma extend_left_spec (g : GridMap) (a0 : list GridCell) :
  _map_data g = Some a0 ->
  length a0 = Z.to_nat (_width g * _height g) ->
  exists a,
    extend_left g =
      Some (with_map_data (Some a)
        (with_origin
           {| v2_x := f64_sub (v2_x (_origin g)) (ext_step g);
              v2_y := v2_y (_origin g) |} g))
    /\ length a = length a0
    /\ forall x y, in_grid (_width g) (_height g) x y ->
         a !! Z.to_nat (y * _width g + x) = shifted_left (_width g) a0 x y.
Proof.
  intros Hd Hlen.
  destruct (shift_left_loops_spec _ _ a0 Hlen) as (a & Ha & Hl & Hc).
  exists a. split; [|split; assumption].
  unfold extend_left. apply (on_map_data_spec _ _ a0); assumption.
Qed.

Lemma extend_right_spec (g : GridMap) (a0 : list GridCell) :
  _map_data g = Some a0 ->
  length a0 = Z.to_nat (_width g * _height g) ->
  exists a,
    extend_right g =
      Some (with_map_data (Some a)
        (with_origin
           {| v2_x := f64_add (v2_x (_origin g)) (ext_step g);
              v2_y := v2_y (_origin g) |} g))
    /\ length a = length a0
    /\ forall x y, in_grid (_width g) (_height g) x y ->
         a !! Z.to_nat (y * _width g + x) = shifted_right (_width g) a0 x y.
Proof.
  intros Hd Hlen.
  destruct (shift_right_loops_spec _ _ a0 Hlen) as (a & Ha & Hl & Hc).
  exists a. split; [|split; assumption].
  unfold extend_right. apply (on_map_data_spec _ _ a0); assumption.
Qed.

Lemma extend_down_spec (g : GridMap) (a0 : list GridCell) :
  _map_data g = Some a0 ->
  length a0 = Z.to_nat (_width g * _height g) ->
  exists a,
    extend_down g =
      Some (with_map_data (Some a)
        (with_origin
           {| v2_x := v2_x (_origin g);
              v2_y := f64_sub (v2_y (_origin g)) (ext_step g) |} g))
    /\ length a = length a0
    /\ forall x y, in_grid (_width g) (_height g) x y ->
         a !! Z.to_nat (y * _width g + x) = shifted_down (_width g) a0 x y.
Proof.
  intros Hd Hlen.
  destruct (shift_down_loops_spec _ _ a0 Hlen) as (a & Ha & Hl & Hc).
  exists a. split; [|split; assumption].
  unfold extend_down. apply (on_map_data_spec _ _ a0); assumption.
Qed.

Lemma extend_top_spec (g : GridMap) (a0 : list GridCell) :
  _map_data g = Some a0 ->
  length a0 = Z.to_nat (_width g * _height g) ->
  exists a,
    extend_top g =
      Some (with_map_data (Some a)
        (with_origin
           {| v2_x := v2_x (_origin g);
              v2_y := f64_add (v2_y (_origin g)) (ext_step g) |} g))
    /\ length a = length a0
    /\ forall x y, in_grid (_width g) (_height g) x y ->
         a !! Z.to_nat (y * _width g + x)
         = shifted_top (_width g) (_height g) a0 x y.
Proof.
  intros Hd Hlen.
  destruct (shift_top_loops_spec _ _ a0 Hlen) as (a & Ha & Hl & Hc).
  exists a. split; [|split; assumption].
  unfold extend_top. apply (on_map_data_spec _ _ a0); assumption.
Qed.

(** ** Flag dispatch *)

Lemma when_flag_set (e flag : Z) (block : GridMap -> option GridMap)
  (g : GridMap) :
  Z.land e flag <> 0%Z -> when_flag e flag block g = block g.
Proof.
  intros H. unfold when_flag.
  destruct (Z.eqb_spec (Z.land e flag) 0); [contradiction | reflexivity].
Qed.

Lemma when_flag_clear (e flag : Z) (block : GridMap -> option GridMap)
  (g : GridMap) :
  Z.land e flag = 0%Z -> when_flag e flag block g = Some g.
Proof. intros H. unfold when_flag. rewrite H. reflexivity. Qed.

Lemma extend_map_only_left (e : Z) (g : GridMap) :
  Z.land e LEFT <> 0%Z -> Z.land e RIGHT = 0%Z ->
  Z.land e DOWN = 0%Z -> Z.land e TOP = 0%Z ->
  extend_map e g = extend_left g.
Proof.
  intros HL HR HD HT. unfold extend_map.
  destruct (Z.eqb_spec e 0) as [->|_]; [rewrite Z.land_0_l in HL; lia|].
  rewrite when_flag_set by exact HL.
  destruct (extend_left g) as [g1|]; [simpl | reflexivity].
  rewrite when_flag_clear by exact HR. simpl.
  rewrite when_flag_clear by exact HD. simpl.
  apply when_flag_clear. exact HT.
Qed.

Lemma extend_map_only_right (e : Z) (g : GridMap) :
  Z.land e LEFT = 0%Z -> Z.land e RIGHT <> 0%Z ->
  Z.land e DOWN = 0%Z -> Z.land e TOP = 0%Z ->
  extend_map e g = extend_right g.
Proof.
  intros HL HR HD HT. unfold extend_map.
  destruct (Z.eqb_spec e 0) as [->|_]; [rewrite Z.land_0_l in HR; lia|].
  rewrite when_flag_clear by exact HL. simpl.
  rewrite when_flag_set by exact HR.
  destruct (extend_right g) as [g1|]; [simpl | reflexivity].
  rewrite when_flag_clear by exact HD. simpl.
  apply when_flag_clear. exact HT.
Qed.

Lemma extend_map_only_down (e : Z) (g : GridMap) :
  Z.land e LEFT = 0%Z -> Z.land e RIGHT = 0%Z ->
  Z.land e DOWN <> 0%Z -> Z.land e TOP = 0%Z ->
  extend_map e g = extend_down g.
Proof.
  intros HL HR HD HT. unfold extend_map.
  destruct (Z.eqb_spec e 0) as [->|_]; [rewrite Z.land_0_l in HD; lia|].
  rewrite when_flag_clear by exact HL. simpl.
  rewrite when_flag_clear by exact HR. simpl.
  rewrite when_flag_set by exact HD.
  destruct (extend_down g) as [g1|]; [simpl | reflexivity].
  apply when_flag_clear. exact HT.
Qed.

Lemma extend_map_left_and_down (e : Z) (g : GridMap) :
  Z.land e LEFT <> 0%Z -> Z.land e RIGHT = 0%Z ->
  Z.land e DOWN <> 0%Z -> Z.land e TOP = 0%Z ->
  extend_map e g = extend_left g ≫= extend_down.
Proof.
  intros HL HR HD HT. unfold extend_map.
  destruct (Z.eqb_spec e 0) as [->|_]; [rewrite Z.land_0_l in HL; lia|].
  rewrite when_flag_set by exact HL.
  destruct (extend_left g) as [g1|]; [simpl | reflexivity].
  rewrite when_flag_clear by exact HR. simpl.
  rewrite when_flag_set by exact HD.
  destruct (extend_down g1) as [g2|]; [simpl | reflexivity].
  apply when_flag_clear. exact HT.
Qed.

(** ** Reading cells of a well-formed grid *)

Lemma cell_xy_in_grid (g : GridMap) (a : list GridCell) (x y : Z) :
  _map_data g = Some a -> in_grid (_width g) (_height g) x y ->
  cell_xy g x y = a !! Z.to_nat (y * _width g + x).
Proof.
  intros Hd G. unfold cell_xy, cell_idx, index_map. rewrite Hd. simpl.
  apply (arr_get_in_grid _ (_height g)). exact G.
Qed.

Lemma numbered_grid_wf (w h : Z) : grid_wf (numbered_grid w h).
Proof.
  eexists. split; [reflexivity|]. unfold numbered_cells. simpl.
  rewrite length_fmap, length_seq. reflexivity.
Qed.

(** ** Extension to the left *)

(** C1. On a well-formed grid, [extend_map] with the [LEFT] flag (and none
    of the three other flags) returns a grid of the same resolution, width
    and height whose origin moved by [EXT_ZONE * _resolution] toward smaller
    [x] (the step is the binary32 product [EXT_ZONE * _resolution], the
    subtraction is that of binary64); cell [(x, y)] with
    [EXT_ZONE <= x < _width] holds what cell
    [(x - EXT_ZONE, y)] held before, and every cell with [x < EXT_ZONE]
    holds log-odds 0. *)
Theorem extend_map_left_preserves_overlap (g : GridMap) (e : Z) :
  grid_wf g ->
  Z.land e LEFT <> 0%Z -> Z.land e RIGHT = 0%Z ->
  Z.land e DOWN = 0%Z -> Z.land e TOP = 0%Z ->
  exists g', extend_map e g = Some g'
    /\ grid_wf g'
    /\ _resolution g' = _resolution g
    /\ _width g' = _width g /\ _height g' = _height g
    /\ v2_x (_origin g')
        = f64_sub (v2_x (_origin g))
            (float_to_double
               (f32_mul (int_to_float EXT_ZONE) (_resolution g)))
    /\ v2_y (_origin g') = v2_y (_origin g)
    /\ forall x y, (0 <= y < _height g)%Z ->
         ((EXT_ZONE <= x < _width g)%Z ->
            exists c, cell_xy g (x - EXT_ZONE) y = Some c
                      /\ cell_xy g' x y = Some c)
         /\ ((0 <= x < EXT_ZONE)%Z -> (x < _width g)%Z ->
            cell_xy g' x y = Some {| _log_odds_val := 0 |}).
Proof.
  intros (a0 & Hd & Hlen) HL HR HD HT.
  rewrite (extend_map_only_left e g HL HR HD HT).
  destruct (extend_left_spec g a0 Hd Hlen) as (a & -> & Hl & Hc).
  eexists. split; [reflexivity|].
  split; [exists a; split; [reflexivity | simpl; congruence]|].
  do 5 (split; [reflexivity|]).
  intros x y Hy. split.
  - intros Hx.
    destruct (lookup_in_grid (_width g) (_height g) a0 (x - EXT_ZONE) y Hlen)
      as [c Hc0]; [pass_side|].
    exists c. split.
    + rewrite (cell_xy_in_grid g a0) by (assumption || pass_side). exact Hc0.
    + rewrite (cell_xy_in_grid _ a) by (reflexivity || (simpl; pass_side)).
      simpl. rewrite Hc by pass_side. unfold shifted_left.
      destruct (Z.ltb_spec x EXT_ZONE); [lia|].
      exact Hc0.
  - intros Hx Hw.
    rewrite (cell_xy_in_grid _ a) by (reflexivity || (simpl; pass_side)).
    simpl. rewrite Hc by pass_side. unfold shifted_left.
    destruct (Z.ltb_spec x EXT_ZONE); [reflexivity | lia].
Qed.

Lemma extend_map_left_preserves_overlap_witness :
  exists g', extend_map LEFT (numbered_grid 52 1) = Some g'
    /\ v2_x (_origin g') = int_to_double (-50)
    /\ cell_xy g' 51 0 = Some {| _log_odds_val := INR 1 |}
    /\ cell_xy g' 49 0 = Some {| _log_odds_val := 0 |}.
Proof.
  destruct (extend_map_left_preserves_overlap (numbered_grid 52 1) LEFT)
    as (g' & Hg' & _ & _ & _ & _ & Hox & _ & Hcells).
  - apply numbered_grid_wf.
  - vm_compute. discriminate.
  - reflexivity.
  - reflexivity.
  - reflexivity.
  - exists g'. split; [exact Hg'|]. split; [rewrite Hox; reflexivity|].
    destruct (Hcells 51%Z 0%Z) as [Hcopy Hreset]; [simpl; lia|].
    destruct (Hcells 49%Z 0%Z) as [_ Hreset']; [simpl; lia|].
    split.
    + destruct Hcopy as (c & Hc & Hc'); [unfold EXT_ZONE; simpl; lia|].
      rewrite Hc'. rewrite <- Hc. reflexivity.
    + apply Hreset'; [unfold EXT_ZONE; lia | simpl; lia].
Defined.

(** ** Combined extension *)

Section SkippedLoops.
Context {St : Type} (body : Z -> St -> option St).

Lemma for_up_empty (lo hi : Z) (s : St) :
  (hi <= lo)%Z -> for_up lo hi body s = Some s.
Proof.
  intros H. unfold for_up.
  replace (Z.to_nat (hi - lo)) with 0%nat by lia. reflexivity.
Qed.

Lemma for_down_empty (hi lo : Z) (s : St) :
  (hi < lo)%Z -> for_down hi lo body s = Some s.
Proof.
  intros H. unfold for_down.
  replace (Z.to_nat (hi - lo + 1)) with 0%nat by lia. reflexivity.
Qed.

Hypothesis body_skips : forall j t, body j t = Some t.

Lemma for_up_skip (lo hi : Z) (s : St) : for_up lo hi body s = Some s.
Proof.
  destruct (for_up_inv body (fun _ t => t = s) lo hi s) as (s' & Hs' & ->);
    [reflexivity | | exact Hs'].
  intros j t _ ->. exists s. split; [apply body_skips | reflexivity].
Qed.

Lemma for_down_skip (hi lo : Z) (s : St) : for_down hi lo body s = Some s.
Proof.
  destruct (for_down_inv body (fun _ t => t = s) hi lo s) as (s' & Hs' & ->);
    [reflexivity | | exact Hs'].
  intros j t _ ->. exists s. split; [apply body_skips | reflexivity].
Qed.
End SkippedLoops.

(** A grid without columns or without rows: the passes touch nothing. *)
Lemma shift_left_loops_no_cell (w h : Z) (a : list GridCell) :
  (w <= 0)%Z \/ (h <= 0)%Z -> shift_left_loops w h a = Some a.
Proof.
  intros [Hw|Hh]; unfold shift_left_loops.
  - apply for_up_skip. intros y t. apply for_down_empty. lia.
  - apply for_up_empty. exact Hh.
Qed.

Lemma shift_down_loops_no_cell (w h : Z) (a : list GridCell) :
  (w <= 0)%Z \/ (h <= 0)%Z -> shift_down_loops w h a = Some a.
Proof.
  intros [Hw|Hh]; unfold shift_down_loops.
  - apply for_down_skip. intros y t. apply for_up_empty. exact Hw.
  - apply for_down_empty. lia.
Qed.

(** Two cell arrays of a grid with columns and rows are equal when they
    agree cell by cell. *)
Lemma grid_cells_ext (w h : Z) (a b : list GridCell) :
  (0 < w)%Z ->
  length a = Z.to_nat (w * h) -> length b = Z.to_nat (w * h) ->
  (forall x y, in_grid w h x y ->
     a !! Z.to_nat (y * w + x) = b !! Z.to_nat (y * w + x)) ->
  a = b.
Proof.
  intros Hw Ha Hb Hcells. apply list_eq. intros i.
  destruct (decide (i < length a)%nat) as [Hi|Hi].
  - assert (Hih : (Z.of_nat i < w * h)%Z) by lia.
    pose proof (Z.mod_pos_bound (Z.of_nat i) w Hw) as Hmod.
    pose proof (Z.div_mod (Z.of_nat i) w ltac:(lia)) as Hdm.
    assert (Hdiv : (0 <= Z.of_nat i / w < h)%Z).
    { split; [apply Z.div_pos; lia|].
      apply Z.div_lt_upper_bound; [exact Hw | lia]. }
    specialize (Hcells (Z.of_nat i mod w)%Z (Z.of_nat i / w)%Z
                  (conj Hmod Hdiv)).
    replace (Z.to_nat (Z.of_nat i / w * w + Z.of_nat i mod w)) with i
      in Hcells by lia.
    exact Hcells.
  - rewrite !lookup_ge_None_2 by lia. reflexivity.
Qed.

Lemma extend_left_then_down (g : GridMap) (a0 : list GridCell) :
  _map_data g = Some a0 ->
  length a0 = Z.to_nat (_width g * _height g) ->
  exists a,
    extend_left g ≫= extend_down =
      Some {| _resolution := _resolution g;
              _width := _width g; _height := _height g;
              _origin :=
                {| v2_x := f64_sub (v2_x (_origin g)) (ext_step g);
                   v2_y := f64_sub (v2_y (_origin g)) (ext_step g) |};
              _map_data := Some a |}
    /\ length a = length a0
    /\ forall x y, in_grid (_width g) (_height g) x y ->
         a !! Z.to_nat (y * _width g + x) =
         if (x <? EXT_ZONE)%Z || (y <? EXT_ZONE)%Z then Some prior
         else a0 !! Z.to_nat ((y - EXT_ZONE) * _width g + (x - EXT_ZONE)).
Proof.
  intros Hd Hlen.
  destruct (extend_left_spec g a0 Hd Hlen) as (a1 & -> & Hl1 & Hc1).
  simpl.
  match goal with |- context [extend_down ?g1] =>
    destruct (extend_down_spec g1 a1) as (a2 & -> & Hl2 & Hc2)
  end; [reflexivity | simpl; congruence |].
  simpl in Hc2. exists a2. split; [reflexivity|]. split; [congruence|].
  intros x y G. rewrite (Hc2 x y G). unfold shifted_down.
  destruct (Z.ltb_spec y EXT_ZONE) as [Hy|Hy].
  - rewrite orb_true_r. reflexivity.
  - rewrite orb_false_r. rewrite Hc1 by pass_side. reflexivity.
Qed.

Lemma extend_down_then_left (g : GridMap) (a0 : list GridCell) :
  _map_data g = Some a0 ->
  length a0 = Z.to_nat (_width g * _height g) ->
  exists a,
    extend_down g ≫= extend_left =
      Some {| _resolution := _resolution g;
              _width := _width g; _height := _height g;
              _origin :=
                {| v2_x := f64_sub (v2_x (_origin g)) (ext_step g);
                   v2_y := f64_sub (v2_y (_origin g)) (ext_step g) |};
              _map_data := Some a |}
    /\ length a = length a0
    /\ forall x y, in_grid (_width g) (_height g) x y ->
         a !! Z.to_nat (y * _width g + x) =
         if (x <? EXT_ZONE)%Z || (y <? EXT_ZONE)%Z then Some prior
         else a0 !! Z.to_nat ((y - EXT_ZONE) * _width g + (x - EXT_ZONE)).
Proof.
  intros Hd Hlen.
  destruct (extend_down_spec g a0 Hd Hlen) as (a1 & -> & Hl1 & Hc1).
  simpl.
  match goal with |- context [extend_left ?g1] =>
    destruct (extend_left_spec g1 a1) as (a2 & -> & Hl2 & Hc2)
  end; [reflexivity | simpl; congruence |].
  simpl in Hc2. exists a2. split; [reflexivity|]. split; [congruence|].
  intros x y G. rewrite (Hc2 x y G). unfold shifted_left.
  destruct (Z.ltb_spec x EXT_ZONE) as [Hx|Hx]; [reflexivity|].
  simpl. rewrite Hc1 by pass_side. reflexivity.
Qed.

Lemma extend_left_no_column (g : GridMap) (a0 : list GridCell) :
  (_width g <= 0)%Z -> _map_data g = Some a0 ->
  extend_left g =
    Some (with_map_data (Some a0)
      (with_origin
         {| v2_x := f64_sub (v2_x (_origin g)) (ext_step g);
            v2_y := v2_y (_origin g) |} g)).
Proof.
  intros Hw Hd. unfold extend_left.
  apply (on_map_data_spec _ _ a0); [exact Hd|].
  apply shift_left_loops_no_cell. left. exact Hw.
Qed.

Lemma extend_down_no_column (g : GridMap) (a0 : list GridCell) :
  (_width g <= 0)%Z -> _map_data g = Some a0 ->
  extend_down g =
    Some (with_map_data (Some a0)
      (with_origin
         {| v2_x := v2_x (_origin g);
            v2_y := f64_sub (v2_y (_origin g)) (ext_step g) |} g)).
Proof.
  intros Hw Hd. unfold extend_down.
  apply (on_map_data_spec _ _ a0); [exact Hd|].
  apply shift_down_loops_no_cell. left. exact Hw.
Qed.

Lemma extend_left_down_commute (g : GridMap) :
  grid_wf g ->
  exists g', extend_left g ≫= extend_down = Some g'
             /\ extend_down g ≫= extend_left = Some g'.
Proof.
  intros (a0 & Hd & Hlen).
  destruct (Z.lt_ge_cases 0 (_width g)) as [Hw|Hw].
  - destruct (extend_left_then_down g a0 Hd Hlen) as (a & Ea & Hla & Hca).
    destruct (extend_down_then_left g a0 Hd Hlen) as (b & Eb & Hlb & Hcb).
    assert (a = b) as <-.
    { apply (grid_cells_ext (_width g) (_height g)); [exact Hw | lia | lia |].
      intros x y G. rewrite (Hca x y G), (Hcb x y G). reflexivity. }
    eexists. split; [exact Ea | exact Eb].
  - rewrite (extend_left_no_column g a0 Hw Hd).
    rewrite (extend_down_no_column g a0 Hw Hd). simpl.
    eexists. split.
    + apply extend_down_no_column; [exact Hw | reflexivity].
    + rewrite extend_left_no_column with (a0 := a0);
        [reflexivity | exact Hw | reflexivity].
Qed.

Lemma LEFT_only : Z.land LEFT LEFT <> 0%Z /\ Z.land LEFT RIGHT = 0%Z
  /\ Z.land LEFT DOWN = 0%Z /\ Z.land LEFT TOP = 0%Z.
Proof. vm_compute. repeat split. discriminate. Qed.

Lemma DOWN_only : Z.land DOWN LEFT = 0%Z /\ Z.land DOWN RIGHT = 0%Z
  /\ Z.land DOWN DOWN <> 0%Z /\ Z.land DOWN TOP = 0%Z.
Proof. vm_compute. repeat split. discriminate. Qed.

Lemma RIGHT_only : Z.land RIGHT LEFT = 0%Z /\ Z.land RIGHT RIGHT <> 0%Z
  /\ Z.land RIGHT DOWN = 0%Z /\ Z.land RIGHT TOP = 0%Z.
Proof. vm_compute. repeat split. discriminate. Qed.

Lemma extend_map_LEFT (g : GridMap) : extend_map LEFT g = extend_left g.
Proof.
  destruct LEFT_only as (H1 & H2 & H3 & H4).
  apply extend_map_only_left; assumption.
Qed.

Lemma extend_map_DOWN (g : GridMap) : extend_map DOWN g = extend_down g.
Proof.
  destruct DOWN_only as (H1 & H2 & H3 & H4).
  apply extend_map_only_down; assumption.
Qed.


(** C7. A call of [extend_map] without any flag returns the grid as it is.
    On a well-formed grid, one call with [LEFT | DOWN] returns the same grid
    (origin and cells) as a call with [LEFT] followed by a call with [DOWN],
    and as a call with [DOWN] followed by a call with [LEFT]. *)
Theorem extend_map_axis_independence (g : GridMap) :
  extend_map NONE g = Some g
  /\ (grid_wf g ->
      exists g', extend_map (Z.lor LEFT DOWN) g = Some g'
        /\ extend_map LEFT g ≫= extend_map DOWN = Some g'
        /\ extend_map DOWN g ≫= extend_map LEFT = Some g').
Proof.
  split; [reflexivity|].
  intros Hwf.
  destruct (extend_left_down_commute g Hwf) as (g' & HLD & HDL).
  exists g'. split; [|split].
  - rewrite extend_map_left_and_down; [exact HLD | | | |];
      vm_compute; (reflexivity || discriminate).
  - rewrite extend_map_LEFT.
    destruct (extend_left g) as [g1|]; [simpl in * | discriminate].
    rewrite extend_map_DOWN. exact HLD.
  - rewrite extend_map_DOWN.
    destruct (extend_down g) as [g1|]; [simpl in * | discriminate].
    rewrite extend_map_LEFT. exact HDL.
Qed.

Lemma extend_map_axis_independence_witness :
  exists g', extend_map (Z.lor LEFT DOWN) (numbered_grid 51 51) = Some g'
    /\ extend_map LEFT (numbered_grid 51 51) ≫= extend_map DOWN = Some g'
    /\ extend_map DOWN (numbered_grid 51 51) ≫= extend_map LEFT = Some g'.
Proof.
  destruct (extend_map_axis_independence (numbered_grid 51 51)) as [_ H].
  apply H. apply numbered_grid_wf.
Defined.

(** ** From world coordinates to indices *)

Lemma is_in_border_true (g : GridMap) (x y : Z) :
  is_in_border g x y = true <-> in_grid (_width g) (_height g) x y.
Proof.
  unfold is_in_border, in_grid. rewrite !andb_true_iff, !Z.geb_le, !Z.ltb_lt.
  tauto.
Qed.

Lemma xy_to_idx_true (g : GridMap) (px py : spec_float) (x y : Z) :
  xy_to_idx g px py = Some (true, x, y) ->
  fp_to_int (f64_div (f64_sub px (v2_x (_origin g)))
               (float_to_double (_resolution g))) = Some x
  /\ fp_to_int (f64_div (f64_sub py (v2_y (_origin g)))
                  (float_to_double (_resolution g))) = Some y
  /\ in_grid (_width g) (_height g) x y.
Proof.
  unfold xy_to_idx.
  destruct (fp_to_int (f64_div (f64_sub px _) _)) as [ix|]; [|discriminate].
  destruct (fp_to_int (f64_div (f64_sub py _) _)) as [iy|]; [|discriminate].
  simpl. destruct (is_in_border g ix iy) eqn:Hb; [|discriminate].
  intros E. injection E as <- <-.
  split; [reflexivity|]. split; [reflexivity|].
  apply is_in_border_true. exact Hb.
Qed.


(** ** World coordinates left of or below the origin *)

(** C2, at the world point [(-0.5, 0.5)] of a ten by ten grid of unit
    resolution with origin [(0, 0)]: the floor of the x offset is [-1],
    which is outside the grid, but [xy_to_idx] reports success with the
    index pair [(0, 0)]: the conversion to [int] discards the fraction
    instead of taking the floor.  The point is the centre that [idx_to_xy]
    gives for the index pair [(-1, 0)], which it reports as outside. *)
Theorem xy_to_idx_left_of_origin :
  let g := numbered_grid 10 10 in
  let x := SFopp double_half in
  let y := double_half in
  fp_floor (f64_div (f64_sub x (v2_x (_origin g)))
              (float_to_double (_resolution g))) = Some (-1)%Z
  /\ is_in_border g (-1) 0 = false
  /\ xy_to_idx g x y = Some (true, 0%Z, 0%Z)
  /\ idx_to_xy g (-1) 0 = (false, x, y).
Proof.
  unfold numbered_grid.
  generalize (Some (numbered_cells (Z.to_nat (10 * 10)))). intros d.
  vm_compute. repeat split; reflexivity.
Qed.

(** ** Boundary zone *)

Ltac eval_land :=
  repeat match goal with
  | |- context [Z.land ?a ?b] =>
      let v := eval vm_compute in (Z.land a b) in
      change (Z.land a b) with v
  end.

Lemma is_in_ext_zone_inside (g : GridMap) (pos : Vector3d) (ix iy : Z) :
  pos_to_idx g pos = Some (true, ix, iy) ->
  exists z, is_in_ext_zone g pos = Some z
    /\ (Z.land z LEFT <> 0%Z <-> (ix < EXT_ZONE)%Z)
    /\ (Z.land z RIGHT <> 0%Z <-> (ix >= _width g - EXT_ZONE)%Z)
    /\ (Z.land z DOWN <> 0%Z <-> (iy < EXT_ZONE)%Z)
    /\ (Z.land z TOP <> 0%Z <-> (iy >= _height g - EXT_ZONE)%Z)
    /\ Z.land z (Z.lor (Z.lor TOP LEFT) (Z.lor DOWN RIGHT)) = z.
Proof.
  intros Hidx. unfold is_in_ext_zone. rewrite Hidx.
  eexists. split; [reflexivity|].
  assert (Hl : (ix <? EXT_ZONE)%Z = true <-> (ix < EXT_ZONE)%Z)
    by apply Z.ltb_lt.
  assert (Hr : (ix >=? _width g - EXT_ZONE)%Z = true
               <-> (ix >= _width g - EXT_ZONE)%Z)
    by (rewrite Z.geb_le; lia).
  assert (Hd : (iy <? EXT_ZONE)%Z = true <-> (iy < EXT_ZONE)%Z)
    by apply Z.ltb_lt.
  assert (Ht : (iy >=? _height g - EXT_ZONE)%Z = true
               <-> (iy >= _height g - EXT_ZONE)%Z)
    by (rewrite Z.geb_le; lia).
  rewrite <- Hl, <- Hr, <- Hd, <- Ht.
  destruct (ix <? EXT_ZONE)%Z, (ix >=? _width g - EXT_ZONE)%Z,
    (iy <? EXT_ZONE)%Z, (iy >=? _height g - EXT_ZONE)%Z;
    eval_land; repeat split; intros; congruence.
Qed.

Lemma is_in_ext_zone_outside (g : GridMap) (pos : Vector3d) (ix iy : Z) :
  pos_to_idx g pos = Some (false, ix, iy) -> is_in_ext_zone g pos = Some NONE.
Proof. intros E. unfold is_in_ext_zone. rewrite E. reflexivity. Qed.

(** C6. When [pos_to_idx] reports failure [is_in_ext_zone] returns [NONE].
    When it reports success with the index pair [(ix, iy)], the returned
    flag set has [LEFT] exactly when [ix < EXT_ZONE], [RIGHT] exactly when
    [ix >= _width - EXT_ZONE], [DOWN] exactly when [iy < EXT_ZONE], [TOP]
    exactly when [iy >= _height - EXT_ZONE], and no bit besides these
    four. *)
Theorem is_in_ext_zone_flags (g : GridMap) (pos : Vector3d) (ok : bool)
  (ix iy : Z) :
  pos_to_idx g pos = Some (ok, ix, iy) ->
  exists z, is_in_ext_zone g pos = Some z
  /\ (ok = false -> z = NONE)
  /\ (ok = true ->
      (Z.land z LEFT <> 0%Z <-> (ix < EXT_ZONE)%Z)
      /\ (Z.land z RIGHT <> 0%Z <-> (ix >= _width g - EXT_ZONE)%Z)
      /\ (Z.land z DOWN <> 0%Z <-> (iy < EXT_ZONE)%Z)
      /\ (Z.land z TOP <> 0%Z <-> (iy >= _height g - EXT_ZONE)%Z)
      /\ Z.land z (Z.lor (Z.lor TOP LEFT) (Z.lor DOWN RIGHT)) = z).
Proof.
  intros Hidx. destruct ok.
  - destruct (is_in_ext_zone_inside g pos ix iy Hidx) as (z & Hz & Hbits).
    exists z. split; [exact Hz|]. split; [discriminate|].
    intros _. exact Hbits.
  - exists NONE. split; [apply (is_in_ext_zone_outside g pos ix iy Hidx)|].
    split; [reflexivity | discriminate].
Qed.

Lemma numbered_grid_point_corner :
  pos_to_idx (numbered_grid 300 300)
    {| v3_x := double_half;
       v3_y := binary_normalize 53 1024 599 (-1) false;
       v3_z := S754_zero false |} = Some (true, 0%Z, 299%Z).
Proof.
  unfold numbered_grid.
  generalize (Some (numbered_cells (Z.to_nat (300 * 300)))). intros d.
  vm_compute. reflexivity.
Qed.

Lemma is_in_ext_zone_flags_witness :
  exists z,
    is_in_ext_zone (numbered_grid 300 300)
      {| v3_x := double_half;
         v3_y := binary_normalize 53 1024 599 (-1) false;
         v3_z := S754_zero false |} = Some z
    /\ (Z.land z LEFT <> 0%Z <-> (0 < EXT_ZONE)%Z)
    /\ (Z.land z TOP <> 0%Z <-> (299 >= 300 - EXT_ZONE)%Z).
Proof.
  destruct (is_in_ext_zone_flags (numbered_grid 300 300)
              {| v3_x := double_half;
                 v3_y := binary_normalize 53 1024 599 (-1) false;
                 v3_z := S754_zero false |} true 0 299
              numbered_grid_point_corner) as (z & Hz & _ & H).
  destruct (H eq_refl) as (HL & _ & _ & HT & _).
  exists z. split; [exact Hz|]. split; [exact HL | exact HT].
Defined.

(** ** Full reset *)

Lemma reset_loop_spec (size : Z) (a0 : list GridCell) :
  length a0 = Z.to_nat size ->
  for_up 0 size (fun i a => arr_modify a i reset_value) a0
  = Some (replicate (Z.to_nat size) prior).
Proof.
  intros Hlen.
  destruct (for_up_inv (fun i a => arr_modify a i reset_value)
    (fun i a => length a = length a0
                /\ forall k : nat, (Z.of_nat k < i)%Z -> (k < length a0)%nat ->
                     a !! k = Some prior)
    0%Z size a0) as (a & Ha & Hl & Hc).
  - split; [reflexivity|]. intros k Hk. lia.
  - intros j a Hj [Hl Hc].
    assert (Hin : (Z.to_nat j < length a)%nat) by lia.
    destruct (lookup_lt_is_Some_2 a (Z.to_nat j) Hin) as [c Hget].
    eexists. split.
    + unfold arr_modify, arr_get.
      rewrite bool_decide_eq_true_2 by lia. rewrite Hget. reflexivity.
    + split; [rewrite length_insert; exact Hl|].
      intros k Hk Hk'. destruct (decide (k = Z.to_nat j)) as [->|NE].
      * apply list_lookup_insert_eq. exact Hin.
      * rewrite list_lookup_insert_ne by congruence. apply Hc; lia.
  - rewrite Ha. f_equal. apply list_eq. intros k.
    destruct (decide (k < length a0)%nat) as [Hk|Hk].
    + rewrite Hc by lia. symmetry. apply lookup_replicate_2. lia.
    + rewrite lookup_ge_None_2 by lia.
      symmetry. apply lookup_ge_None_2. rewrite length_replicate. lia.
Qed.

Lemma reset_map_result (junk : nat -> GridCell) (pos : Vector3d)
  (g : GridMap) :
  (0 <= _width g * _height g)%Z ->
  reset_map junk pos g =
    Some (with_map_data
            (Some (replicate (Z.to_nat (_width g * _height g)) prior))
            (set_origin pos g)).
Proof.
  intros Hsize. unfold reset_map, allocate_map_data. simpl.
  rewrite bool_decide_eq_true_2 by exact Hsize. simpl.
  unfold reset_map_data. simpl.
  rewrite reset_loop_spec
    by (rewrite length_fmap, length_seq; reflexivity).
  reflexivity.
Qed.

(** C10. On a grid with [0 <= _width * _height <= INT_MAX], [reset_map pos]
    returns a grid with the resolution, width and height it had, whose
    origin is [(pos.x - _resolution * _width / 2,
    pos.y - _resolution * _height / 2)], the product and the quotient taken
    in binary32 and the difference in binary64 as the source does, and
    whose array holds [_width * _height] cells, each with log-odds 0,
    whatever the fresh memory held. *)
Theorem reset_map_frame (junk : nat -> GridCell) (pos : Vector3d)
  (g : GridMap) :
  (0 <= _width g * _height g <= INT_MAX)%Z ->
  exists g', reset_map junk pos g = Some g'
    /\ _resolution g' = _resolution g
    /\ _width g' = _width g /\ _height g' = _height g
    /\ _origin g' =
         {| v2_x := f64_sub (v3_x pos)
                      (float_to_double
                         (f32_div
                            (f32_mul (_resolution g)
                               (int_to_float (_width g)))
                            (int_to_float 2)));
            v2_y := f64_sub (v3_y pos)
                      (float_to_double
                         (f32_div
                            (f32_mul (_resolution g)
                               (int_to_float (_height g)))
                            (int_to_float 2))) |}
    /\ _map_data g' =
         Some (replicate (Z.to_nat (_width g * _height g))
                 {| _log_odds_val := 0 |})
    /\ forall x y, (0 <= x < _width g)%Z -> (0 <= y < _height g)%Z ->
         cell_xy g' x y = Some {| _log_odds_val := 0 |}.
Proof.
  intros [Hsize _]. rewrite reset_map_result by exact Hsize.
  eexists. split; [reflexivity|].
  do 5 (split; [reflexivity|]).
  intros x y Hx Hy.
  erewrite cell_xy_in_grid; [| reflexivity | split; assumption].
  simpl. apply lookup_replicate_2.
  pose proof (index_in_range (_width g) (_height g) x y (conj Hx Hy)). lia.
Qed.

Lemma reset_map_frame_witness :
  exists g',
    reset_map (fun i => {| _log_odds_val := INR i |})
      {| v3_x := int_to_double 4; v3_y := int_to_double 6;
         v3_z := S754_zero false |} (numbered_grid 3 2) = Some g'
    /\ _origin g' = {| v2_x := binary_normalize 53 1024 5 (-1) false;
                       v2_y := int_to_double 5 |}
    /\ cell_xy g' 2 1 = Some {| _log_odds_val := 0 |}.
Proof.
  destruct (reset_map_frame (fun i => {| _log_odds_val := INR i |})
              {| v3_x := int_to_double 4; v3_y := int_to_double 6;
                 v3_z := S754_zero false |} (numbered_grid 3 2))
    as (g' & Hg' & _ & _ & _ & Ho & _ & Hc).
  - unfold INT_MAX. simpl. lia.
  - exists g'. split; [exact Hg'|]. split; [rewrite Ho; reflexivity|].
    apply Hc; simpl; lia.
Defined.

(** ** Index and world coordinates *)








(** ** A world point across an extension to the right *)








(** * Further properties of the cell, the sensor and the grid *)

(** ** Cell values stay bounded *)

Lemma update_keeps_bound (D d : R) (c : GridCell) :
  (- D <= d <= D)%R ->
  (-50 - D <= _log_odds_val c <= 50 + D)%R ->
  (-50 - D <= _log_odds_val (update d c) <= 50 + D)%R.
Proof.
  intros Hd Hc. unfold update.
  repeat case_bool_decide; simpl; lra.
Qed.

(** Whatever sequence of increments of magnitude at most [D] is applied with
    [update], a cell value that starts in [[-50 - D, 50 + D]] stays in it. *)
Theorem update_sequence_bounded (D : R) (ds : list R) (c : GridCell) :
  Forall (fun d => (- D <= d <= D)%R) ds ->
  (-50 - D <= _log_odds_val c <= 50 + D)%R ->
  (-50 - D <= _log_odds_val (foldl (fun c d => update d c) c ds)
   <= 50 + D)%R.
Proof.
  intros Hds. revert c. induction Hds as [|d ds Hd _ IH]; intros c Hc.
  - exact Hc.
  - simpl. apply IH. apply update_keeps_bound; assumption.
Qed.

Lemma update_sequence_bounded_witness :
  (-50 - 3 <= _log_odds_val
     (foldl (fun c d => update d c) {| _log_odds_val := 0 |} [3; -2; 3]%R)
   <= 50 + 3)%R.
Proof.
  apply (update_sequence_bounded 3 [3; -2; 3]%R).
  - repeat constructor; lra.
  - simpl. lra.
Defined.

(** ** Sign of the sensor increments *)

Lemma sensor_increment_signs (hit_factor miss_factor : R) :
  (0 < miss_factor)%R -> (miss_factor < hit_factor)%R -> (hit_factor < 1)%R ->
  (0 <= _log_odds_hit (set_update_factor hit_factor miss_factor))%R
  /\ (_log_odds_miss (set_update_factor hit_factor miss_factor) <= 0)%R.
Proof.
  intros Hm Hmh Hh. simpl. split; apply Rlt_le.
  - rewrite <- ln_1. apply ln_increasing; [lra|].
    apply Rmult_lt_reg_r with miss_factor; [exact Hm|].
    unfold Rdiv. rewrite Rmult_assoc, Rinv_l by lra. lra.
  - rewrite <- ln_1. apply ln_increasing.
    + apply Rdiv_lt_0_compat; lra.
    + apply Rmult_lt_reg_r with (1 - miss_factor)%R; [lra|].
      unfold Rdiv. rewrite Rmult_assoc, Rinv_l by lra. lra.
Qed.

(** For a sensor configured with [0 < miss_factor < hit_factor < 1],
    [set_hit] never lowers a cell value and [set_miss] never raises it. *)
Theorem sensor_hit_raises_miss_lowers (hit_factor miss_factor : R)
  (c : GridCell) :
  (0 < miss_factor)%R -> (miss_factor < hit_factor)%R -> (hit_factor < 1)%R ->
  let s := set_update_factor hit_factor miss_factor in
  (_log_odds_val c <= _log_odds_val (set_hit s c))%R
  /\ (_log_odds_val (set_miss s c) <= _log_odds_val c)%R.
Proof.
  intros Hm Hmh Hh s.
  destruct (sensor_increment_signs hit_factor miss_factor Hm Hmh Hh)
    as [Hhit Hmiss].
  subst s. simpl in Hhit, Hmiss. unfold set_hit, set_miss, update. simpl.
  split; repeat case_bool_decide; simpl; lra.
Qed.

Lemma sensor_hit_raises_miss_lowers_witness :
  let s := set_update_factor DEFAULT_HIT_FACTOR DEFAULT_MISS_FACTOR in
  (0 <= _log_odds_val (set_hit s {| _log_odds_val := 0 |}))%R
  /\ (_log_odds_val (set_miss s {| _log_odds_val := 0 |}) <= 0)%R.
Proof.
  intros s.
  apply (sensor_hit_raises_miss_lowers DEFAULT_HIT_FACTOR
           DEFAULT_MISS_FACTOR {| _log_odds_val := 0 |});
    unfold DEFAULT_MISS_FACTOR, DEFAULT_HIT_FACTOR; lra.
Defined.

(** ** Classification *)

(** With [s_log_odds_free_thre <= s_log_odds_occupied_thre] no cell is both
    occupied and free; with the prior 0 between the thresholds a reset cell
    is neither. *)
Theorem occupied_free_exclusive (occupied_thre free_thre : R) (c : GridCell) :
  (free_thre <= occupied_thre)%R ->
  (is_occupied occupied_thre c && is_free free_thre c = false)
  /\ ((free_thre <= 0 <= occupied_thre)%R ->
      is_occupied occupied_thre (reset_value c) = false
      /\ is_free free_thre (reset_value c) = false).
Proof.
  intros H. unfold is_occupied, is_free, reset_value. split.
  - repeat case_bool_decide; simpl; try reflexivity. lra.
  - intros H0. simpl. split; apply bool_decide_eq_false_2; lra.
Qed.

Lemma occupied_free_exclusive_witness :
  is_occupied 2 {| _log_odds_val := 5 |}
  && is_free (-2) {| _log_odds_val := 5 |} = false.
Proof.
  apply (occupied_free_exclusive 2 (-2) {| _log_odds_val := 5 |}). lra.
Defined.

(** ** Row-major layout *)

Lemma quot_row_major (w x y : Z) :
  (0 <= x < w)%Z -> (0 <= y)%Z -> ((y * w + x) ÷ w = y)%Z.
Proof.
  intros Hx Hy. rewrite Z.quot_div_nonneg by nia.
  symmetry. apply (Z.div_unique_pos _ _ _ x); [exact Hx | lia].
Qed.

(** On a grid with [_width * _height <= INT_MAX], where the index arithmetic
    stays in the [int] range, the two overloads of [index_map] are inverse
    to each other between the index pairs of the grid and the positions
    [0 .. _width * _height - 1] of the cell array. *)
Theorem index_map_bijection (g : GridMap) :
  (_width g * _height g <= INT_MAX)%Z ->
  (forall x y, (0 <= x < _width g)%Z -> (0 <= y < _height g)%Z ->
     (0 <= index_map g x y < _width g * _height g)%Z
     /\ index_map_inv g (index_map g x y) = (x, y))
  /\ (forall idx, (0 <= idx < _width g * _height g)%Z -> (0 < _width g)%Z ->
        (0 <= (index_map_inv g idx).1 < _width g)%Z
        /\ (0 <= (index_map_inv g idx).2 < _height g)%Z
        /\ index_map g (index_map_inv g idx).1 (index_map_inv g idx).2 = idx).
Proof.
  intros _. split.
  - intros x y Hx Hy. split.
    + apply (index_in_range _ _ x y). split; assumption.
    + unfold index_map_inv, index_map.
      rewrite quot_row_major by lia. f_equal. lia.
  - intros idx Hidx Hw. unfold index_map_inv, index_map. simpl.
    rewrite Z.quot_div_nonneg by lia.
    pose proof (Z.mod_pos_bound idx (_width g) Hw) as Hmod.
    pose proof (Z.div_mod idx (_width g) ltac:(lia)) as Hdm.
    assert (Hdiv : (0 <= idx / _width g < _height g)%Z).
    { split; [apply Z.div_pos; lia|].
      apply Z.div_lt_upper_bound; [exact Hw | lia]. }
    repeat split; try lia.
Qed.

Lemma index_map_bijection_witness :
  index_map_inv (numbered_grid 51 3) (index_map (numbered_grid 51 3) 7 2)
  = (7%Z, 2%Z).
Proof.
  destruct (index_map_bijection (numbered_grid 51 3)) as [H _].
  - unfold INT_MAX. simpl. lia.
  - apply (H 7%Z 2%Z); simpl; lia.
Defined.

(** ** Extension to the right, downward and upward *)

Lemma extend_map_only_top (e : Z) (g : GridMap) :
  Z.land e LEFT = 0%Z -> Z.land e RIGHT = 0%Z ->
  Z.land e DOWN = 0%Z -> Z.land e TOP <> 0%Z ->
  extend_map e g = extend_top g.
Proof.
  intros HL HR HD HT. unfold extend_map.
  destruct (Z.eqb_spec e 0) as [->|_]; [rewrite Z.land_0_l in HT; lia|].
  rewrite when_flag_clear by exact HL. simpl.
  rewrite when_flag_clear by exact HR. simpl.
  rewrite when_flag_clear by exact HD. simpl.
  apply when_flag_set. exact HT.
Qed.

(** On a well-formed grid, [extend_map] with the [RIGHT] flag alone moves
    the origin by the binary32 product [EXT_ZONE * _resolution] toward
    larger [x]; cell [(x, y)]
    with [x < _width - EXT_ZONE] holds what cell [(x + EXT_ZONE, y)] held,
    and the cells of the last [EXT_ZONE] columns hold log-odds 0. *)
Theorem extend_map_right_preserves_overlap (g : GridMap) (e : Z) :
  grid_wf g ->
  Z.land e LEFT = 0%Z -> Z.land e RIGHT <> 0%Z ->
  Z.land e DOWN = 0%Z -> Z.land e TOP = 0%Z ->
  exists g', extend_map e g = Some g'
    /\ grid_wf g'
    /\ _resolution g' = _resolution g
    /\ _width g' = _width g /\ _height g' = _height g
    /\ v2_x (_origin g')
        = f64_add (v2_x (_origin g))
            (float_to_double
               (f32_mul (int_to_float EXT_ZONE) (_resolution g)))
    /\ v2_y (_origin g') = v2_y (_origin g)
    /\ forall x y, (0 <= y < _height g)%Z ->
         ((0 <= x < _width g - EXT_ZONE)%Z ->
            exists c, cell_xy g (x + EXT_ZONE) y = Some c
                      /\ cell_xy g' x y = Some c)
         /\ ((_width g - EXT_ZONE <= x < _width g)%Z -> (0 <= x)%Z ->
            cell_xy g' x y = Some {| _log_odds_val := 0 |}).
Proof.
  intros (a0 & Hd & Hlen) HL HR HD HT.
  rewrite (extend_map_only_right e g HL HR HD HT).
  destruct (extend_right_spec g a0 Hd Hlen) as (a & -> & Hl & Hc).
  eexists. split; [reflexivity|].
  split; [exists a; split; [reflexivity | simpl; congruence]|].
  do 5 (split; [reflexivity|]).
  intros x y Hy. split.
  - intros Hx.
    destruct (lookup_in_grid (_width g) (_height g) a0 (x + EXT_ZONE) y Hlen)
      as [c Hc0]; [pass_side|].
    exists c. split.
    + rewrite (cell_xy_in_grid g a0) by (assumption || pass_side). exact Hc0.
    + rewrite (cell_xy_in_grid _ a) by (reflexivity || (simpl; pass_side)).
      simpl. rewrite Hc by pass_side. unfold shifted_right.
      rewrite Z.geb_leb.
      destruct (Z.leb_spec (_width g - EXT_ZONE) x); [lia | exact Hc0].
  - intros Hx Hx0.
    rewrite (cell_xy_in_grid _ a) by (reflexivity || (simpl; pass_side)).
    simpl. rewrite Hc by pass_side. unfold shifted_right.
    rewrite Z.geb_leb.
    destruct (Z.leb_spec (_width g - EXT_ZONE) x); [reflexivity | lia].
Qed.

Lemma extend_map_right_preserves_overlap_witness :
  exists g', extend_map RIGHT (numbered_grid 51 1) = Some g'
    /\ cell_xy g' 0 0 = cell_xy (numbered_grid 51 1) 50 0
    /\ cell_xy g' 1 0 = Some {| _log_odds_val := 0 |}.
Proof.
  destruct RIGHT_only as (H1 & H2 & H3 & H4).
  destruct (extend_map_right_preserves_overlap (numbered_grid 51 1) RIGHT
              (numbered_grid_wf 51 1) H1 H2 H3 H4)
    as (g' & Hg' & _ & _ & _ & _ & _ & _ & Hcells).
  exists g'. split; [exact Hg'|].
  destruct (Hcells 0%Z 0%Z) as [Hcopy _]; [simpl; lia|].
  destruct (Hcells 1%Z 0%Z) as [_ Hreset]; [simpl; lia|].
  split.
  - destruct Hcopy as (c & Hc & Hc'); [unfold EXT_ZONE; simpl; lia|].
    rewrite Hc'. rewrite <- Hc. reflexivity.
  - apply Hreset; [unfold EXT_ZONE; simpl; lia | lia].
Defined.

(** On a well-formed grid, [extend_map] with the [DOWN] flag alone moves the
    origin by the binary32 product [EXT_ZONE * _resolution] toward smaller
    [y]; cell [(x, y)]
    with [EXT_ZONE <= y] holds what cell [(x, y - EXT_ZONE)] held, and the
    cells of the first [EXT_ZONE] rows hold log-odds 0. *)
Theorem extend_map_down_preserves_overlap (g : GridMap) (e : Z) :
  grid_wf g ->
  Z.land e LEFT = 0%Z -> Z.land e RIGHT = 0%Z ->
  Z.land e DOWN <> 0%Z -> Z.land e TOP = 0%Z ->
  exists g', extend_map e g = Some g'
    /\ grid_wf g'
    /\ _resolution g' = _resolution g
    /\ _width g' = _width g /\ _height g' = _height g
    /\ v2_x (_origin g') = v2_x (_origin g)
    /\ v2_y (_origin g')
        = f64_sub (v2_y (_origin g))
            (float_to_double
               (f32_mul (int_to_float EXT_ZONE) (_resolution g)))
    /\ forall x y, (0 <= x < _width g)%Z ->
         ((EXT_ZONE <= y < _height g)%Z ->
            exists c, cell_xy g x (y - EXT_ZONE) = Some c
                      /\ cell_xy g' x y = Some c)
         /\ ((0 <= y < EXT_ZONE)%Z -> (y < _height g)%Z ->
            cell_xy g' x y = Some {| _log_odds_val := 0 |}).
Proof.
  intros (a0 & Hd & Hlen) HL HR HD HT.
  rewrite (extend_map_only_down e g HL HR HD HT).
  destruct (extend_down_spec g a0 Hd Hlen) as (a & -> & Hl & Hc).
  eexists. split; [reflexivity|].
  split; [exists a; split; [reflexivity | simpl; congruence]|].
  do 5 (split; [reflexivity|]).
  intros x y Hx. split.
  - intros Hy.
    destruct (lookup_in_grid (_width g) (_height g) a0 x (y - EXT_ZONE) Hlen)
      as [c Hc0]; [pass_side|].
    exists c. split.
    + rewrite (cell_xy_in_grid g a0) by (assumption || pass_side). exact Hc0.
    + rewrite (cell_xy_in_grid _ a) by (reflexivity || (simpl; pass_side)).
      simpl. rewrite Hc by pass_side. unfold shifted_down.
      destruct (Z.ltb_spec y EXT_ZONE); [lia | exact Hc0].
  - intros Hy Hh.
    rewrite (cell_xy_in_grid _ a) by (reflexivity || (simpl; pass_side)).
    simpl. rewrite Hc by pass_side. unfold shifted_down.
    destruct (Z.ltb_spec y EXT_ZONE); [reflexivity | lia].
Qed.

Lemma extend_map_down_preserves_overlap_witness :
  exists g', extend_map DOWN (numbered_grid 1 52) = Some g'
    /\ cell_xy g' 0 51 = Some {| _log_odds_val := INR 1 |}
    /\ cell_xy g' 0 49 = Some {| _log_odds_val := 0 |}.
Proof.
  destruct DOWN_only as (H1 & H2 & H3 & H4).
  destruct (extend_map_down_preserves_overlap (numbered_grid 1 52) DOWN
              (numbered_grid_wf 1 52) H1 H2 H3 H4)
    as (g' & Hg' & _ & _ & _ & _ & _ & _ & Hcells).
  exists g'. split; [exact Hg'|].
  destruct (Hcells 0%Z 51%Z) as [Hcopy _]; [simpl; lia|].
  destruct (Hcells 0%Z 49%Z) as [_ Hreset]; [simpl; lia|].
  split.
  - destruct Hcopy as (c & Hc & Hc'); [unfold EXT_ZONE; simpl; lia|].
    rewrite Hc'. rewrite <- Hc. reflexivity.
  - apply Hreset; [unfold EXT_ZONE; lia | simpl; lia].
Defined.

(** On a well-formed grid, [extend_map] with the [TOP] flag alone moves the
    origin by the binary32 product [EXT_ZONE * _resolution] toward larger
    [y]; cell [(x, y)] with
    [y < _height - EXT_ZONE] holds what cell [(x, y + EXT_ZONE)] held, and
    the cells of the last [EXT_ZONE] rows hold log-odds 0. *)
Theorem extend_map_top_preserves_overlap (g : GridMap) (e : Z) :
  grid_wf g ->
  Z.land e LEFT = 0%Z -> Z.land e RIGHT = 0%Z ->
  Z.land e DOWN = 0%Z -> Z.land e TOP <> 0%Z ->
  exists g', extend_map e g = Some g'
    /\ grid_wf g'
    /\ _resolution g' = _resolution g
    /\ _width g' = _width g /\ _height g' = _height g
    /\ v2_x (_origin g') = v2_x (_origin g)
    /\ v2_y (_origin g')
        = f64_add (v2_y (_origin g))
            (float_to_double
               (f32_mul (int_to_float EXT_ZONE) (_resolution g)))
    /\ forall x y, (0 <= x < _width g)%Z ->
         ((0 <= y < _height g - EXT_ZONE)%Z ->
            exists c, cell_xy g x (y + EXT_ZONE) = Some c
                      /\ cell_xy g' x y = Some c)
         /\ ((_height g - EXT_ZONE <= y < _height g)%Z -> (0 <= y)%Z ->
            cell_xy g' x y = Some {| _log_odds_val := 0 |}).
Proof.
  intros (a0 & Hd & Hlen) HL HR HD HT.
  rewrite (extend_map_only_top e g HL HR HD HT).
  destruct (extend_top_spec g a0 Hd Hlen) as (a & -> & Hl & Hc).
  eexists. split; [reflexivity|].
  split; [exists a; split; [reflexivity | simpl; congruence]|].
  do 5 (split; [reflexivity|]).
  intros x y Hx. split.
  - intros Hy.
    destruct (lookup_in_grid (_width g) (_height g) a0 x (y + EXT_ZONE) Hlen)
      as [c Hc0]; [pass_side|].
    exists c. split.
    + rewrite (cell_xy_in_grid g a0) by (assumption || pass_side). exact Hc0.
    + rewrite (cell_xy_in_grid _ a) by (reflexivity || (simpl; pass_side)).
      simpl. rewrite Hc by pass_side. unfold shifted_top.
      rewrite Z.geb_leb.
      destruct (Z.leb_spec (_height g - EXT_ZONE) y); [lia | exact Hc0].
  - intros Hy Hy0.
    rewrite (cell_xy_in_grid _ a) by (reflexivity || (simpl; pass_side)).
    simpl. rewrite Hc by pass_side. unfold shifted_top.
    rewrite Z.geb_leb.
    destruct (Z.leb_spec (_height g - EXT_ZONE) y); [reflexivity | lia].
Qed.

Lemma TOP_only : Z.land TOP LEFT = 0%Z /\ Z.land TOP RIGHT = 0%Z
  /\ Z.land TOP DOWN = 0%Z /\ Z.land TOP TOP <> 0%Z.
Proof. vm_compute. repeat split. discriminate. Qed.

Lemma extend_map_top_preserves_overlap_witness :
  exists g', extend_map TOP (numbered_grid 1 51) = Some g'
    /\ cell_xy g' 0 0 = cell_xy (numbered_grid 1 51) 0 50
    /\ cell_xy g' 0 1 = Some {| _log_odds_val := 0 |}.
Proof.
  destruct TOP_only as (H1 & H2 & H3 & H4).
  destruct (extend_map_top_preserves_overlap (numbered_grid 1 51) TOP
              (numbered_grid_wf 1 51) H1 H2 H3 H4)
    as (g' & Hg' & _ & _ & _ & _ & _ & _ & Hcells).
  exists g'. split; [exact Hg'|].
  destruct (Hcells 0%Z 0%Z) as [Hcopy _]; [simpl; lia|].
  destruct (Hcells 0%Z 1%Z) as [_ Hreset]; [simpl; lia|].
  split.
  - destruct Hcopy as (c & Hc & Hc'); [unfold EXT_ZONE; simpl; lia|].
    rewrite Hc'. rewrite <- Hc. reflexivity.
  - apply Hreset; [unfold EXT_ZONE; simpl; lia | lia].
Defined.

(** ** [extend_map] with any flags *)

Lemma when_flag_wf (e flag : Z) (block : GridMap -> option GridMap)
  (o : GridMap -> Vector2d) :
  (forall g a0, _map_data g = Some a0 ->
     length a0 = Z.to_nat (_width g * _height g) ->
     exists a, block g = Some (with_map_data (Some a) (with_origin (o g) g))
               /\ length a = length a0) ->
  forall g, grid_wf g ->
  exists g', when_flag e flag block g = Some g'
    /\ grid_wf g'
    /\ _resolution g' = _resolution g
    /\ _width g' = _width g /\ _height g' = _height g.
Proof.
  intros Hblock g Hwf. unfold when_flag.
  destruct (Z.land e flag =? 0)%Z.
  - exists g. repeat split; try reflexivity. exact Hwf.
  - destruct Hwf as (a0 & Hd & Hlen).
    destruct (Hblock g a0 Hd Hlen) as (a & -> & Hl).
    eexists. split; [reflexivity|].
    split; [exists a; split; [reflexivity | simpl; congruence]|].
    repeat split; reflexivity.
Qed.

(** On a well-formed grid [extend_map] returns for every flag byte: no cell
    outside the array is accessed.  The grid it returns is well-formed and
    has the same resolution, width and height. *)
Theorem extend_map_keeps_invariant (e : Z) (g : GridMap) :
  grid_wf g ->
  exists g', extend_map e g = Some g'
    /\ grid_wf g'
    /\ _resolution g' = _resolution g
    /\ _width g' = _width g /\ _height g' = _height g.
Proof.
  intros Hwf. unfold extend_map.
  destruct (Z.eqb_spec e 0) as [->|_].
  - exists g. split; [reflexivity|]. split; [exact Hwf|].
    repeat split; reflexivity.
  - destruct (when_flag_wf e LEFT extend_left _
                (fun g a0 Hd Hlen =>
                   match extend_left_spec g a0 Hd Hlen with
                   | ex_intro _ a (conj E (conj Hl _)) =>
                       ex_intro _ a (conj E Hl)
                   end) g Hwf)
      as (g1 & -> & Hwf1 & Hr1 & Hw1 & Hh1).
    simpl.
    destruct (when_flag_wf e RIGHT extend_right _
                (fun g a0 Hd Hlen =>
                   match extend_right_spec g a0 Hd Hlen with
                   | ex_intro _ a (conj E (conj Hl _)) =>
                       ex_intro _ a (conj E Hl)
                   end) g1 Hwf1)
      as (g2 & -> & Hwf2 & Hr2 & Hw2 & Hh2).
    simpl.
    destruct (when_flag_wf e DOWN extend_down _
                (fun g a0 Hd Hlen =>
                   match extend_down_spec g a0 Hd Hlen with
                   | ex_intro _ a (conj E (conj Hl _)) =>
                       ex_intro _ a (conj E Hl)
                   end) g2 Hwf2)
      as (g3 & -> & Hwf3 & Hr3 & Hw3 & Hh3).
    simpl.
    destruct (when_flag_wf e TOP extend_top _
                (fun g a0 Hd Hlen =>
                   match extend_top_spec g a0 Hd Hlen with
                   | ex_intro _ a (conj E (conj Hl _)) =>
                       ex_intro _ a (conj E Hl)
                   end) g3 Hwf3)
      as (g4 & -> & Hwf4 & Hr4 & Hw4 & Hh4).
    exists g4. split; [reflexivity|]. split; [exact Hwf4|].
    split; [congruence|]. split; congruence.
Qed.

Lemma extend_map_keeps_invariant_witness :
  exists g', extend_map 15 (numbered_grid 60 70) = Some g' /\ grid_wf g'.
Proof.
  destruct (extend_map_keeps_invariant 15 (numbered_grid 60 70)
              (numbered_grid_wf 60 70)) as (g' & Hg' & Hwf & _).
  exists g'. split; assumption.
Defined.

(** ** Zone flags that exclude each other *)

(** On a grid at least [2 * EXT_ZONE] cells wide [is_in_ext_zone] never
    returns [LEFT] together with [RIGHT], and on a grid at least
    [2 * EXT_ZONE] cells high never [DOWN] together with [TOP]. *)
Theorem is_in_ext_zone_opposite_flags (g : GridMap) (pos : Vector3d) (z : Z) :
  is_in_ext_zone g pos = Some z ->
  ((2 * EXT_ZONE <= _width g)%Z ->
     Z.land z LEFT = 0%Z \/ Z.land z RIGHT = 0%Z)
  /\ ((2 * EXT_ZONE <= _height g)%Z ->
     Z.land z DOWN = 0%Z \/ Z.land z TOP = 0%Z).
Proof.
  intros Hz.
  destruct (pos_to_idx g pos) as [[[[|] ix] iy]|] eqn:E.
  - destruct (is_in_ext_zone_inside g pos ix iy E)
      as (z' & Hz' & HL & HR & HD & HT & _).
    rewrite Hz in Hz'. injection Hz' as <-.
    split; intros Hsz.
    + destruct (Z.eq_dec (Z.land z LEFT) 0) as [|NL]; [left; assumption|].
      destruct (Z.eq_dec (Z.land z RIGHT) 0) as [|NR]; [right; assumption|].
      apply HL in NL. apply HR in NR. lia.
    + destruct (Z.eq_dec (Z.land z DOWN) 0) as [|ND]; [left; assumption|].
      destruct (Z.eq_dec (Z.land z TOP) 0) as [|NT]; [right; assumption|].
      apply HD in ND. apply HT in NT. lia.
  - rewrite (is_in_ext_zone_outside g pos ix iy E) in Hz.
    injection Hz as <-. split; intros _; left; reflexivity.
  - unfold is_in_ext_zone in Hz. rewrite E in Hz. discriminate.
Qed.

Lemma is_in_ext_zone_opposite_flags_witness :
  exists z,
    is_in_ext_zone (numbered_grid 300 300)
      {| v3_x := double_half;
         v3_y := binary_normalize 53 1024 599 (-1) false;
         v3_z := S754_zero false |} = Some z
    /\ (Z.land z LEFT = 0%Z \/ Z.land z RIGHT = 0%Z).
Proof.
  destruct (is_in_ext_zone_inside (numbered_grid 300 300) _ 0 299
              numbered_grid_point_corner) as (z & Hz & _).
  exists z. split; [exact Hz|].
  destruct (is_in_ext_zone_opposite_flags (numbered_grid 300 300) _ z Hz)
    as [H _].
  apply H. unfold EXT_ZONE. simpl. lia.
Defined.

(** ** Opposite flags in one call *)

Lemma extend_map_left_and_right (e : Z) (g : GridMap) :
  Z.land e LEFT <> 0%Z -> Z.land e RIGHT <> 0%Z ->
  Z.land e DOWN = 0%Z -> Z.land e TOP = 0%Z ->
  extend_map e g = extend_left g ≫= extend_right.
Proof.
  intros HL HR HD HT. unfold extend_map.
  destruct (Z.eqb_spec e 0) as [->|_]; [rewrite Z.land_0_l in HL; lia|].
  rewrite when_flag_set by exact HL.
  destruct (extend_left g) as [g1|]; [simpl | reflexivity].
  rewrite when_flag_set by exact HR.
  destruct (extend_right g1) as [g2|]; [simpl | reflexivity].
  rewrite when_flag_clear by exact HD. simpl.
  apply when_flag_clear. exact HT.
Qed.

(** On a well-formed grid, [extend_map] with both [LEFT] and [RIGHT] (and
    neither [DOWN] nor [TOP]) subtracts the step [EXT_ZONE * _resolution]
    from the x coordinate of the origin and adds it again, in binary64, and
    leaves the y coordinate; it does not restore the cells: the columns
    [x < _width - EXT_ZONE] hold what they held, the last [EXT_ZONE]
    columns hold log-odds 0. *)
Theorem extend_map_left_right_loses_columns (g : GridMap) (e : Z) :
  grid_wf g ->
  Z.land e LEFT <> 0%Z -> Z.land e RIGHT <> 0%Z ->
  Z.land e DOWN = 0%Z -> Z.land e TOP = 0%Z ->
  exists g', extend_map e g = Some g'
    /\ v2_x (_origin g')
       = f64_add
           (f64_sub (v2_x (_origin g))
              (float_to_double
                 (f32_mul (int_to_float EXT_ZONE) (_resolution g))))
           (float_to_double
              (f32_mul (int_to_float EXT_ZONE) (_resolution g)))
    /\ v2_y (_origin g') = v2_y (_origin g)
    /\ forall x y, (0 <= x < _width g)%Z -> (0 <= y < _height g)%Z ->
         ((x < _width g - EXT_ZONE)%Z ->
            exists c, cell_xy g x y = Some c /\ cell_xy g' x y = Some c)
         /\ ((_width g - EXT_ZONE <= x)%Z ->
            cell_xy g' x y = Some {| _log_odds_val := 0 |}).
Proof.
  intros (a0 & Hd & Hlen) HL HR HD HT.
  rewrite (extend_map_left_and_right e g HL HR HD HT).
  destruct (extend_left_spec g a0 Hd Hlen) as (a1 & -> & Hl1 & Hc1).
  simpl.
  match goal with |- context [extend_right ?g1] =>
    destruct (extend_right_spec g1 a1) as (a2 & -> & Hl2 & Hc2)
  end; [reflexivity | simpl; congruence |].
  simpl in Hc2. eexists. split; [reflexivity|].
  split; [reflexivity|]. split; [reflexivity|].
  intros x y Hx Hy.
  assert (G : in_grid (_width g) (_height g) x y) by (split; assumption).
  match goal with
  | |- context [cell_xy ?g2 x y = Some {| _log_odds_val := 0 |}] =>
      assert (Hcell : cell_xy g2 x y = shifted_right (_width g) a1 x y)
        by (rewrite (cell_xy_in_grid g2 a2) by (reflexivity || exact G);
            simpl; apply Hc2; exact G)
  end.
  rewrite Hcell. unfold shifted_right. rewrite Z.geb_leb.
  pose proof EXT_ZONE_nonneg.
  destruct (Z.leb_spec (_width g - EXT_ZONE) x) as [Hhi|Hlo].
  - split; [lia | reflexivity].
  - split; [|lia]. intros _.
    rewrite Hc1 by pass_side. unfold shifted_left.
    destruct (Z.ltb_spec (x + EXT_ZONE) EXT_ZONE); [lia|].
    replace (x + EXT_ZONE - EXT_ZONE)%Z with x by lia.
    destruct (lookup_in_grid _ _ a0 x y Hlen G) as [c Hc0].
    exists c. split; [|exact Hc0].
    rewrite (cell_xy_in_grid g a0) by assumption. exact Hc0.
Qed.

Lemma extend_map_left_right_loses_columns_witness :
  exists g', extend_map (Z.lor LEFT RIGHT) (numbered_grid 52 1) = Some g'
    /\ cell_xy g' 1 0 = Some {| _log_odds_val := INR 1 |}
    /\ cell_xy g' 2 0 = Some {| _log_odds_val := 0 |}.
Proof.
  destruct (extend_map_left_right_loses_columns (numbered_grid 52 1)
              (Z.lor LEFT RIGHT)) as (g' & Hg' & _ & _ & Hcells).
  - apply numbered_grid_wf.
  - vm_compute. discriminate.
  - vm_compute. discriminate.
  - reflexivity.
  - reflexivity.
  - exists g'. split; [exact Hg'|].
    destruct (Hcells 1%Z 0%Z) as [Hkeep _]; [simpl; lia | simpl; lia |].
    destruct (Hcells 2%Z 0%Z) as [_ Hreset]; [simpl; lia | simpl; lia |].
    split.
    + destruct Hkeep as (c & Hc & Hc'); [unfold EXT_ZONE; simpl; lia|].
      rewrite Hc'. rewrite <- Hc. reflexivity.
    + apply Hreset. unfold EXT_ZONE. simpl. lia.
Defined.

(** ** Indices returned by [xy_to_idx] *)

Lemma clamp_in_range (i n : Z) :
  (1 <= n)%Z -> (0 <= Z.max 0 (Z.min i (n - 1)) < n)%Z.
Proof. lia. Qed.

(** On a well-formed grid with at least one column and one row, the index
    pair that [xy_to_idx] returns addresses a cell of the array, whether the
    call reports success or not. *)
Theorem xy_to_idx_index_is_safe (g : GridMap) (px py : spec_float)
  (ok : bool) (ix iy : Z) :
  grid_wf g -> (1 <= _width g)%Z -> (1 <= _height g)%Z ->
  xy_to_idx g px py = Some (ok, ix, iy) ->
  is_in_border g ix iy = true /\ exists c, cell_xy g ix iy = Some c.
Proof.
  intros (a0 & Hd & Hlen) Hw Hh E.
  assert (G : in_grid (_width g) (_height g) ix iy).
  { unfold xy_to_idx in E.
    destruct (fp_to_int (f64_div (f64_sub px _) _)) as [jx|]; [|discriminate].
    destruct (fp_to_int (f64_div (f64_sub py _) _)) as [jy|]; [|discriminate].
    simpl in E. destruct (is_in_border g jx jy) eqn:Hb.
    - injection E as _ <- <-. apply is_in_border_true. exact Hb.
    - injection E as _ <- <-. split; apply clamp_in_range; assumption. }
  split; [apply is_in_border_true; exact G|].
  rewrite (cell_xy_in_grid g a0) by assumption.
  apply (lookup_in_grid _ _ a0 ix iy Hlen G).
Qed.

Lemma numbered_grid_point_far :
  xy_to_idx (numbered_grid 51 1)
    (binary_normalize 53 1024 161 (-1) false)
    (binary_normalize 53 1024 (-15) (-1) false)
  = Some (false, 50%Z, 0%Z).
Proof.
  unfold numbered_grid.
  generalize (Some (numbered_cells (Z.to_nat (51 * 1)))). intros d.
  vm_compute. reflexivity.
Qed.

Lemma xy_to_idx_index_is_safe_witness :
  is_in_border (numbered_grid 51 1) 50 0 = true
  /\ exists c, cell_xy (numbered_grid 51 1) 50 0 = Some c.
Proof.
  apply (xy_to_idx_index_is_safe (numbered_grid 51 1)
           (binary_normalize 53 1024 161 (-1) false)
           (binary_normalize 53 1024 (-15) (-1) false) false).
  - apply numbered_grid_wf.
  - simpl. lia.
  - simpl. lia.
  - exact numbered_grid_point_far.
Defined.

(** ** What the constructor builds *)

Lemma init_result (junk : nat -> GridCell)
  (resolution width height : spec_float) (w h : Z)
  (center_pos : Vector3d) (g : GridMap) :
  fp_to_int width = Some w -> fp_to_int height = Some h ->
  (0 <= w * h)%Z ->
  init junk resolution width height center_pos g =
    Some (centred_grid resolution w h center_pos
            (Some (replicate (Z.to_nat (w * h)) prior))).
Proof.
  intros Hw Hh Hsize. unfold init. rewrite Hw, Hh. simpl.
  unfold allocate_map_data. simpl.
  rewrite bool_decide_eq_true_2 by exact Hsize. simpl.
  unfold reset_map_data. simpl.
  rewrite reset_loop_spec
    by (rewrite length_fmap, length_seq; reflexivity).
  reflexivity.
Qed.

(** The constructor called with its default arguments, and with the centre
    [(1e15, 0, 0)], builds the sample grids. *)
Lemma GridMap_new_default (junk : nat -> GridCell) (uninit : GridMap) :
  GridMap_new junk RESOLUTION (int_to_float WIDTH) (int_to_float HEIGHT)
    zero_pos uninit
  = Some (default_grid (Some (replicate (Z.to_nat (WIDTH * HEIGHT)) prior)))
  /\ GridMap_new junk RESOLUTION (int_to_float WIDTH) (int_to_float HEIGHT)
       {| v3_x := int_to_double (10 ^ 15); v3_y := S754_zero false;
          v3_z := S754_zero false |} uninit
     = Some (far_grid (Some (replicate (Z.to_nat (WIDTH * HEIGHT)) prior))).
Proof.
  unfold GridMap_new.
  split; apply init_result; (reflexivity || (unfold WIDTH, HEIGHT; lia)).
Qed.

(** When the [float] width and height convert to [int] values [w] and [h]
    with [0 <= w * h <= INT_MAX], the constructor returns a well-formed
    grid, whatever the members and the fresh memory held: its resolution is
    the one given, its width and height are [w] and [h], its origin is
    [center_pos] less [_resolution * _width / 2] and
    [_resolution * _height / 2], computed in binary32 and subtracted in
    binary64, and every cell holds log-odds 0. *)
Theorem GridMap_new_establishes_invariant (junk : nat -> GridCell)
  (resolution width height : spec_float) (w h : Z)
  (center_pos : Vector3d) (uninit : GridMap) :
  fp_to_int width = Some w -> fp_to_int height = Some h ->
  (0 <= w * h <= INT_MAX)%Z ->
  exists g,
    GridMap_new junk resolution width height center_pos uninit = Some g
    /\ grid_wf g
    /\ _resolution g = resolution
    /\ _width g = w /\ _height g = h
    /\ _origin g =
         {| v2_x := f64_sub (v3_x center_pos)
                      (float_to_double
                         (f32_div (f32_mul resolution (int_to_float w))
                            (int_to_float 2)));
            v2_y := f64_sub (v3_y center_pos)
                      (float_to_double
                         (f32_div (f32_mul resolution (int_to_float h))
                            (int_to_float 2))) |}
    /\ forall x y, (0 <= x < w)%Z -> (0 <= y < h)%Z ->
         cell_xy g x y = Some {| _log_odds_val := 0 |}.
Proof.
  intros Hw Hh [Hsize _]. unfold GridMap_new.
  rewrite (init_result _ _ _ _ w h) by assumption.
  eexists. split; [reflexivity|].
  split.
  { eexists. split; [reflexivity|]. simpl. apply length_replicate. }
  do 4 (split; [reflexivity|]).
  intros x y Hx Hy.
  erewrite cell_xy_in_grid; [| reflexivity | split; assumption].
  simpl. apply lookup_replicate_2.
  pose proof (index_in_range _ _ x y (conj Hx Hy)). lia.
Qed.

Lemma GridMap_new_establishes_invariant_witness :
  exists g,
    GridMap_new (fun i => {| _log_odds_val := INR i |}) float_one
      (binary_normalize 24 128 5 (-1) false)
      (binary_normalize 24 128 5 (-1) false)
      zero_pos (numbered_grid 7 7) = Some g
    /\ grid_wf g /\ _width g = 2%Z.
Proof.
  destruct (GridMap_new_establishes_invariant
              (fun i => {| _log_odds_val := INR i |}) float_one
              (binary_normalize 24 128 5 (-1) false)
              (binary_normalize 24 128 5 (-1) false) 2 2
              zero_pos (numbered_grid 7 7))
    as (g & Hg & Hwf & _ & Hw & _).
  - reflexivity.
  - reflexivity.
  - unfold INT_MAX. lia.
  - exists g. repeat split; assumption.
Defined.

(** ** Copies *)

Lemma copy_cells_loop_spec (grid_map : GridMap) (src : list GridCell)
  (size : Z) (a : list GridCell) :
  _map_data grid_map = Some src ->
  length src = Z.to_nat size -> length a = Z.to_nat size ->
  copy_cells_loop grid_map size a = Some src.
Proof.
  intros Hd Hsrc Ha. unfold copy_cells_loop.
  destruct (for_up_inv
    (fun i a => c ← cell_idx grid_map i; arr_modify a i (fun _ => c))
    (fun i b => length b = length src
                /\ forall k : nat, (Z.of_nat k < i)%Z -> b !! k = src !! k)
    0%Z size a) as (b & Hb & Hl & Hc).
  - split; [lia|]. intros k Hk. lia.
  - intros j b Hj [Hl Hc].
    assert (Hin : (Z.to_nat j < length src)%nat) by lia.
    destruct (lookup_lt_is_Some_2 src (Z.to_nat j) Hin) as [c Hget].
    destruct (lookup_lt_is_Some_2 b (Z.to_nat j)) as [c' Hget']; [lia|].
    eexists. split.
    + unfold cell_idx, arr_modify, arr_get. rewrite Hd. simpl.
      rewrite bool_decide_eq_true_2 by lia. rewrite Hget. simpl.
      rewrite Hget'. reflexivity.
    + split; [rewrite length_insert; exact Hl|].
      intros k Hk. destruct (decide (k = Z.to_nat j)) as [->|NE].
      * rewrite Hget. apply list_lookup_insert_eq. lia.
      * rewrite list_lookup_insert_ne by congruence. apply Hc. lia.
  - rewrite Hb. f_equal. apply list_eq. intros k.
    destruct (decide (k < length src)%nat) as [Hk|Hk].
    + apply Hc. lia.
    + rewrite !lookup_ge_None_2 by lia. reflexivity.
Qed.

(** The copy of a well-formed grid with [0 <= _width * _height] is a grid
    equal to it in every member and every cell, whatever the fresh memory
    held. *)
Theorem GridMap_copy_equal (junk : nat -> GridCell) (grid_map : GridMap) :
  grid_wf grid_map -> (0 <= _width grid_map * _height grid_map)%Z ->
  GridMap_copy junk grid_map = Some grid_map.
Proof.
  intros (src & Hd & Hlen) Hsize. unfold GridMap_copy, allocate_map_data.
  simpl. rewrite bool_decide_eq_true_2 by exact Hsize. simpl.
  rewrite (copy_cells_loop_spec grid_map src)
    by (assumption || (rewrite length_fmap, length_seq; reflexivity)).
  simpl. unfold with_map_data. simpl. rewrite <- Hd.
  destruct grid_map. reflexivity.
Qed.

Lemma GridMap_copy_equal_witness :
  GridMap_copy (fun _ => {| _log_odds_val := 9 |}) (numbered_grid 51 3)
  = Some (numbered_grid 51 3).
Proof.
  apply GridMap_copy_equal; [apply numbered_grid_wf | simpl; lia].
Defined.

(** Assigning a well-formed grid with [0 <= _width * _height] to a
    well-formed grid makes the destination equal to the source in every
    member and every cell, whether the array is allocated anew (sizes
    differ) or kept (sizes agree), and also on self-assignment. *)
Theorem GridMap_assign_equal (junk : nat -> GridCell) (same_object : bool)
  (this grid_map : GridMap) :
  grid_wf this -> grid_wf grid_map ->
  (0 <= _width grid_map * _height grid_map)%Z ->
  (same_object = true -> this = grid_map) ->
  GridMap_assign junk same_object this grid_map = Some grid_map.
Proof.
  intros (dst & Hdd & Hdl) (src & Hd & Hlen) Hsize Hsame.
  unfold GridMap_assign. destruct same_object.
  { rewrite Hsame by reflexivity. reflexivity. }
  destruct (Z.eqb_spec (_width grid_map) (_width this)) as [Ew|Ew];
    destruct (Z.eqb_spec (_height grid_map) (_height this)) as [Eh|Eh];
    simpl.
  1: { unfold on_map_data. simpl. rewrite Hdd.
       rewrite (copy_cells_loop_spec grid_map src)
         by (assumption || (rewrite Ew, Eh; exact Hdl)).
       simpl. unfold with_map_data. simpl. rewrite <- Hd.
       destruct grid_map. reflexivity. }
  all: rewrite bool_decide_eq_true_2 by lia; simpl;
    unfold on_map_data; simpl;
    rewrite (copy_cells_loop_spec grid_map src)
      by (assumption
          || (rewrite length_fmap, length_seq; f_equal; lia));
    simpl; unfold with_map_data; simpl; rewrite <- Hd;
    destruct grid_map; reflexivity.
Qed.

Lemma GridMap_assign_equal_witness :
  GridMap_assign (fun _ => {| _log_odds_val := 9 |}) false
    (numbered_grid 3 2) (numbered_grid 51 3)
  = Some (numbered_grid 51 3).
Proof.
  apply GridMap_assign_equal.
  - apply numbered_grid_wf.
  - apply numbered_grid_wf.
  - simpl. lia.
  - discriminate.
Defined.
